(** * Module federation: share-list parsing and server-side patches

    A shallow embedding of
    - [packages/enhanced/src/lib/sharing/SharePlugin.ts] (the constructor of
      [SharePlugin]: the share list, its consumes and its provides);
    - the server helpers [configureServerLibraryAndFilename] and
      [handleServerExternals] of the Next.js federation plugin;
    - [dynamicLoad], which the repository only documents.

    JavaScript values are modelled by the TypeScript types the code declares:
    an optional property is an [option], a union is an inductive type, a
    [throw] is the [Throw] completion. *)

From Stdlib Require Import Ascii.
From Stdlib Require String.
From stdpp Require Import base option list strings pretty gmap sorting.

(** ** JavaScript primitives used by the sources *)

Module Js.

(** What a [throw] carries: [new Error(message)], or the [TypeError] the
    runtime raises on a property access of [undefined] or on an argument of
    the wrong type. *)
Inductive Exception : Type :=
| Error (message : string)
| TypeError (message : string).

(** The completion of an evaluation: a value, or an abrupt [throw]. *)
Inductive Completion (A : Type) : Type :=
| Return (value : A)
| Throw (exn : Exception).
Global Arguments Return {A} value.
Global Arguments Throw {A} exn.

(** Sequencing: a [throw] skips the rest. With these instances stdpp's
    [x ← c; k] reads as the statement sequence of the source. *)
Global Instance completion_ret : MRet Completion := λ A, Return.
Global Instance completion_bind : MBind Completion := λ A B k c,
  match c with
  | Return a => k a
  | Throw e => Throw e
  end.

(** A [for ... of] loop (or [Array.prototype.map]) whose body may throw:
    elements are visited in order and the first [throw] ends the loop. *)
Fixpoint forEach {A B} (f : A → Completion B) (l : list A) : Completion (list B) :=
  match l with
  | [] => Return []
  | a :: l' =>
      b ← f a; bs ← forEach f l'; Return (b :: bs)
  end.

(** [s.startsWith(p)] *)
Definition startsWith (s p : string) : bool := String.prefix p s.

(** [s.includes(sub)]: [sub] occurs at some position of [s]. *)
Fixpoint includes (s sub : string) : bool :=
  String.prefix sub s ||
  match s with
  | EmptyString => false
  | String _ s' => includes s' sub
  end.

(** [s.split(sep)] for a separator of one character. The result is never
    empty: [''.split(' ')] is [['']]. *)
Fixpoint split (sep : ascii) (s : string) : list string :=
  match s with
  | EmptyString => [EmptyString]
  | String c s' =>
      if bool_decide (c = sep) then EmptyString :: split sep s'
      else match split sep s' with
           | piece :: pieces => String c piece :: pieces
           | [] => [String c EmptyString]
           end
  end.

(** Truthiness of a string: only [''] is falsy. *)
Definition truthy (s : string) : bool :=
  match s with
  | EmptyString => false
  | String _ _ => true
  end.

(** [o || d] for an optional string [o]: [undefined] and [''] are falsy. *)
Definition or_else (o : option string) (d : string) : string :=
  match o with
  | Some s => if truthy s then s else d
  | None => d
  end.

End Js.

Import Js.

(** ** Ordinary objects with string keys *)

Module JsObject.

(** The value of a decimal digit. *)
Definition digit (c : ascii) : option N :=
  let code := N_of_ascii c in
  if (48 <=? code)%N && (code <=? 57)%N then Some (code - 48)%N else None.

(** The value of a non-empty string of decimal digits. *)
Fixpoint decimal_from (value : N) (s : string) : option N :=
  match s with
  | EmptyString => Some value
  | String c s' =>
      match digit c with
      | Some d => decimal_from (10 * value + d)%N s'
      | None => None
      end
  end.

Definition decimal (s : string) : option N :=
  match s with
  | EmptyString => None
  | String _ _ => decimal_from 0 s
  end.

(** A key is an array index when it is the canonical decimal form of an
    integer below [2^32 - 1]: ['0'] and ['17'] are, ['01'], ['-1'] and
    ['react'] are not. *)
Definition array_index (key : string) : option N :=
  match decimal key with
  | Some n =>
      if bool_decide (pretty n = key) && (n <? 4294967295)%N then Some n
      else None
  | None => None
  end.

(** An object holds its array-index properties by ascending index and its
    other properties in the order of their creation. *)
Record t (V : Type) : Type := mk {
  indexed : list (N * V);
  named : list (string * V);
}.
Global Arguments mk {V} indexed named.
Global Arguments indexed {V} _.
Global Arguments named {V} _.

(** [obj[index] = value] *)
Fixpoint set_indexed {V} (index : N) (value : V) (properties : list (N * V)) :
    list (N * V) :=
  match properties with
  | [] => [(index, value)]
  | (i, v) :: rest =>
      if (index <? i)%N then (index, value) :: properties
      else if (index =? i)%N then (index, value) :: rest
      else (i, v) :: set_indexed index value rest
  end.

(** [obj[key] = value] for a key that is no array index: an existing
    property keeps its place. *)
Fixpoint set_named {V} (key : string) (value : V)
    (properties : list (string * V)) : list (string * V) :=
  match properties with
  | [] => [(key, value)]
  | (k, v) :: rest =>
      if bool_decide (k = key) then (k, value) :: rest
      else (k, v) :: set_named key value rest
  end.

Definition set {V} (obj : t V) (key : string) (value : V) : t V :=
  match array_index key with
  | Some index => mk (set_indexed index value (indexed obj)) (named obj)
  | None => mk (indexed obj) (set_named key value (named obj))
  end.

(** [Object.fromEntries(pairs)] *)
Definition fromEntries {V} (pairs : list (string * V)) : t V :=
  foldl (λ obj '(key, value), set obj key value) (mk [] []) pairs.

(** [Object.entries(obj)]: the array indices in ascending order, then the
    other keys in the order of their creation. *)
Definition entries {V} (obj : t V) : list (string * V) :=
  ((λ '(index, value), (pretty index, value)) <$> indexed obj) ++ named obj.

(** The keys are pairwise distinct and stand as [Object.entries] lists the
    keys of an object: array indices first, ascending, then the others. *)
Definition property_order (keys : list string) : Prop :=
  ∃ (index_keys : list string) (indices : list N) (names : list string),
    keys = index_keys ++ names ∧
    Forall2 (λ key index, array_index key = Some index) index_keys indices ∧
    StronglySorted N.lt indices ∧
    Forall (λ key, array_index key = None) names ∧
    NoDup names.

End JsObject.

(** ** The share list: [SharePlugin.ts] *)

Module SharedConfig.
(** [import?: false | string] *)
Inductive Import : Type :=
| ImportFalse
| ImportRequest (request : string).

(** [requiredVersion?: false | string], [version?: false | string] *)
Inductive Version : Type :=
| VersionFalse
| VersionString (range : string).

Record t : Type := mk {
  eager : option bool;
  import : option Import;
  packageName : option string;
  requiredVersion : option Version;
  shareKey : option string;
  shareScope : option string;
  singleton : option bool;
  strictVersion : option bool;
  version : option Version;
}.
End SharedConfig.

Module ConsumesConfig.
Record t : Type := mk {
  import : option SharedConfig.Import;
  shareKey : string;
  shareScope : option string;
  requiredVersion : option SharedConfig.Version;
  strictVersion : option bool;
  singleton : option bool;
  packageName : option string;
  eager : option bool;
}.
End ConsumesConfig.

Module ProvidesConfig.
Record t : Type := mk {
  shareKey : string;
  shareScope : option string;
  version : option SharedConfig.Version;
  eager : option bool;
}.
End ProvidesConfig.

Module Sharing.
Import SharedConfig.

(** What [parseOptions] hands to its [normalizeSimple] callback:
    [string | string[]]. *)
Inductive SimpleItem : Type :=
| ItemString (item : string)
| ItemArray (items : list string).

(** What a key of the declaration maps to. *)
Inductive SharedValue : Type :=
| Simple (item : SimpleItem)
| Options (config : SharedConfig.t).

(** The [shared] declaration: a list of bare specifiers, or an object from
    keys to values, its entries in the order [Object.entries] lists them. *)
Inductive Shared : Type :=
| SharedArray (items : list string)
| SharedObject (entries : list (string * SharedValue)).

(** The entries of a declaration; a bare specifier of the list form is its
    own key. *)
Definition entries (shared : Shared) : list (string * SharedValue) :=
  match shared with
  | SharedArray items => map (λ item, (item, Simple (ItemString item))) items
  | SharedObject entries => entries
  end.

(** [typeof item !== 'string'] for the value of an entry that is not an
    options object: the value is an array. *)
Definition is_array_value (value : SharedValue) : bool :=
  match value with
  | Simple (ItemArray _) => true
  | _ => false
  end.

(** The parser's output presented as a declaration: the object
    [Object.fromEntries(sharedOptions)], from each key to its options
    object. A key that occurs twice is one property of the object, and the
    object lists its array-index keys first. *)
Definition as_declaration (sharedOptions : list (string * SharedConfig.t)) :
    Shared :=
  SharedObject
    (JsObject.entries
       (JsObject.fromEntries
          (map (λ '(key, options), (key, Options options)) sharedOptions))).

(** Apart from [import] and [requiredVersion], every property of the config
    is [undefined]. *)
Definition only_import_and_requiredVersion (config : SharedConfig.t) : Prop :=
  eager config = None ∧ packageName config = None ∧
  shareKey config = None ∧ SharedConfig.shareScope config = None ∧
  singleton config = None ∧ strictVersion config = None ∧
  version config = None.

(** Modelled from the spec: [parseOptions] of [../container/options] is not
    among the sources. Following section 4.1, it accepts a list of bare
    specifiers or a mapping from key to a string or an options object and
    returns the ordered list of [(key, config)] pairs: a string (or array)
    value goes through [normalizeSimple] with its key, an options object
    through [normalizeOptions], and an error of a callback ends the parse. *)
Definition parseOptions {R} (options : Shared)
    (normalizeSimple : SimpleItem → string → Completion R)
    (normalizeOptions : SharedConfig.t → string → R) :
    Completion (list (string * R)) :=
  forEach (λ '(key, value),
    match value with
    | Simple item => config ← normalizeSimple item key; Return (key, config)
    | Options item => Return (key, normalizeOptions item key)
    end) (entries options).

Section SharePlugin.
(** [isRequiredVersion] of [./utils] is not among the sources: does a
    string look like a version range? *)
Variable isRequiredVersion : string → bool.

(** Lines 28-41: the [normalizeSimple] callback. *)
Definition normalizeSimple (item : SimpleItem) (key : string) :
    Completion SharedConfig.t :=
  match item with
  | ItemArray _ => Throw (Error "Unexpected array in shared")
  | ItemString item =>
      Return
        (if bool_decide (item = key) || negb (isRequiredVersion item)
         then {| eager := None; import := Some (ImportRequest item);
                 packageName := None; requiredVersion := None;
                 shareKey := None; shareScope := None; singleton := None;
                 strictVersion := None; version := None |}
         else {| eager := None; import := Some (ImportRequest key);
                 packageName := None;
                 requiredVersion := Some (VersionString item);
                 shareKey := None; shareScope := None; singleton := None;
                 strictVersion := None; version := None |})
  end.

(** Line 42: the [normalizeOptions] callback, [(item) => item]. *)
Definition normalizeOptions (item : SharedConfig.t) (key : string) :
    SharedConfig.t := item.

(** Lines 26-43: [sharedOptions]. *)
Definition sharedOptions (shared : Shared) :
    Completion (list (string * SharedConfig.t)) :=
  parseOptions shared normalizeSimple normalizeOptions.
End SharePlugin.

(** Lines 44-57: one record [{ [key]: { ... } }] per entry. *)
Definition consumes (sharedOptions : list (string * SharedConfig.t)) :
    list (string * ConsumesConfig.t) :=
  map (λ '(key, options),
    (key,
     {| ConsumesConfig.import := import options;
        ConsumesConfig.shareKey := or_else (shareKey options) key;
        ConsumesConfig.shareScope := shareScope options;
        ConsumesConfig.requiredVersion := requiredVersion options;
        ConsumesConfig.strictVersion := strictVersion options;
        ConsumesConfig.singleton := singleton options;
        ConsumesConfig.packageName := packageName options;
        ConsumesConfig.eager := eager options |})) sharedOptions.

(** [options.import !== false] *)
Definition import_is_not_false (options : SharedConfig.t) : bool :=
  match import options with
  | Some ImportFalse => false
  | _ => true
  end.

(** [options.import || key]: [undefined], [false] and [''] are falsy. *)
Definition import_or_key (options : SharedConfig.t) (key : string) : string :=
  match import options with
  | Some (ImportRequest request) => if truthy request then request else key
  | Some ImportFalse | None => key
  end.

(** Lines 58-67: the entries that are provided, each as
    [{ [options.import || key]: { ... } }]. *)
Definition provides (sharedOptions : list (string * SharedConfig.t)) :
    list (string * ProvidesConfig.t) :=
  map (λ '(key, options),
    (import_or_key options key,
     {| ProvidesConfig.shareKey := or_else (shareKey options) key;
        ProvidesConfig.shareScope := shareScope options;
        ProvidesConfig.version := version options;
        ProvidesConfig.eager := eager options |}))
    (List.filter (λ '(_, options), import_is_not_false options) sharedOptions).

Record SharePluginOptions : Type := {
  shared : Shared;
  shareScope : option string;
}.

Record SharePlugin : Type := {
  _shareScope : option string;
  _consumes : list (string * ConsumesConfig.t);
  _provides : list (string * ProvidesConfig.t);
}.

(** Lines 25-72: [new SharePlugin(options)]. *)
Definition constructor (isRequiredVersion : string → bool)
    (options : SharePluginOptions) : Completion SharePlugin :=
  parsed ← sharedOptions isRequiredVersion (shared options);
  Return {| _shareScope := shareScope options;
            _consumes := consumes parsed;
            _provides := provides parsed |}.

End Sharing.


(** ** The server helpers of the Next.js federation plugin *)

Module LibraryOptions.
Record t : Type := mk {
  type : string;
  name : option string;
}.
End LibraryOptions.

Module ModuleFederationPluginOptions.
(** The options object of the federation plugin. [name], [filename],
    [library], [remotes] and [shared] are the properties the helpers touch;
    the others stand for the rest of the object. *)
Record t : Type := mk {
  name : option string;
  filename : option string;
  library : option LibraryOptions.t;
  remotes : option (list (string * string));
  exposes : option (list (string * string));
  shared : option Sharing.Shared;
  shareScope : option string;
}.
End ModuleFederationPluginOptions.

Module Server.
Import Sharing ModuleFederationPluginOptions.

(** Lines 72-83. The function mutates its argument and returns nothing: the
    model returns the completion together with the options object as the call
    leaves it. [basename] is Node's [path.basename], which throws a
    [TypeError] when its argument is not a string; the assignment to
    [library] has happened by then. *)
Definition configureServerLibraryAndFilename (basename : string → string)
    (options : ModuleFederationPluginOptions.t) :
    Completion unit * ModuleFederationPluginOptions.t :=
  let options :=
    {| name := name options;
       filename := filename options;
       library := Some {| LibraryOptions.type := "commonjs-module";
                          LibraryOptions.name := name options |};
       remotes := remotes options;
       exposes := exposes options;
       shared := shared options;
       shareScope := shareScope options |} in
  match filename options with
  | Some path =>
      (Return (),
       {| name := name options;
          filename := Some (basename path);
          library := library options;
          remotes := remotes options;
          exposes := exposes options;
          shared := shared options;
          shareScope := shareScope options |})
  | None =>
      (Throw (TypeError "The path argument must be of type string"), options)
  end.

(** The context webpack passes to an externals function: [ctx.request]. *)
Record ExternalsContext : Type := {
  request : option string;
}.

(** An externals function is effectful. The effect kept here is the sequence
    of calls made to externals functions; a computation threads it and ends
    in a completion (the settled promise of an [async] function). *)
Definition Async (A : Type) : Type :=
  list ExternalsContext → Completion A * list ExternalsContext.

Definition ExternalsFunction : Type := ExternalsContext → Async (option string).

(** An entry of [compiler.options.externals]: a function, or a string. *)
Inductive ExternalItem : Type :=
| ExternalFunction (fn : ExternalsFunction)
| ExternalString (external : string).

(** [compiler.options.externals]: an array of entries or a single entry. *)
Inductive Externals : Type :=
| ExternalsArray (items : list ExternalItem)
| ExternalsSingle (item : ExternalItem).

Record Compiler : Type := {
  externals : Externals;
}.

(** [originalExternals(ctx, callback)] and the [await] of its result: the
    call is recorded, then the callee runs. Calling what is not a function
    throws. *)
Definition call (originalExternals : ExternalItem) (ctx : ExternalsContext) :
    Async (option string) :=
  λ calls,
    match originalExternals with
    | ExternalFunction fn => fn ctx (calls ++ [ctx])
    | ExternalString _ =>
        (Throw (TypeError "originalExternals is not a function"), calls)
    end.

(** [Object.keys(options.shared || {})]: the keys of an object, the indices
    of an array. *)
Definition keys (shared : option Shared) : list string :=
  match shared with
  | None => []
  | Some (SharedArray items) => map pretty (seq 0 (length items))
  | Some (SharedObject entries) => map fst entries
  end.

(** [options.shared?.[key]?.import !== false]: only an options object has an
    [import]; on a string, an array or [undefined] the property reads
    [undefined]. *)
Definition import_not_false (shared : option Shared) (key : string) : bool :=
  match shared with
  | Some (SharedObject entries) =>
      match (list_to_map entries : gmap string SharedValue) !! key with
      | Some (Options config) => import_is_not_false config
      | _ => true
      end
  | _ => true
  end.

(** Lines 119-129: the operand of [ctx.request && (...)]. *)
Definition treated_as_internal
    (options : ModuleFederationPluginOptions.t) (request : string) : bool :=
  includes request "@module-federation/utilities"
  || includes request "internal-delegate-hoist"
  || existsb (λ key, import_not_false (shared options) key
                     && includes request key)
       (keys (shared options))
  || includes request "@module-federation/dashboard-plugin".

(** Lines 116-152: the function that replaces the first externals entry. *)
Definition patchedExternals (options : ModuleFederationPluginOptions.t)
    (originalExternals : ExternalItem) : ExternalsFunction :=
  λ ctx calls,
    if match request ctx with
       | Some request => truthy request && treated_as_internal options request
       | None => false
       end
    then (Return None, calls)
    else
      match call originalExternals ctx calls with
      | (Throw exn, calls) => (Throw exn, calls)
      | (Return None, calls) => (Return None, calls)
      | (Return (Some fromNext), calls) =>
          if negb (truthy fromNext) then (Return None, calls)
          else
            match split " " fromNext !! 1 with
            | None =>
                (Throw (TypeError
                   "Cannot read properties of undefined (reading 'startsWith')"),
                 calls)
            | Some req =>
                if startsWith req "next" || startsWith req "react"
                then (Return (Some fromNext), calls)
                else (Return None, calls)
            end
      end.

(** [compiler.options.externals[0]] is truthy. *)
Definition first_is_truthy (items : list ExternalItem) : bool :=
  match items with
  | ExternalFunction _ :: _ => true
  | ExternalString external :: _ => truthy external
  | [] => false
  end.

(** Lines 103-154. *)
Definition handleServerExternals (compiler : Compiler)
    (options : ModuleFederationPluginOptions.t) : Compiler :=
  match externals compiler with
  | ExternalsArray ((originalExternals :: rest) as items) =>
      if first_is_truthy items
      then {| externals :=
                ExternalsArray
                  (ExternalFunction (patchedExternals options originalExternals)
                   :: rest) |}
      else compiler
  | _ => compiler
  end.

End Server.


(** ** [dynamicLoad] *)

Module DynamicLoad.

(** [{name, entryUrl, scope}] *)
Record RemoteDescriptor : Type := {
  name : string;
  entryUrl : string;
  scope : option string;
}.

Inductive ErrorKind : Type :=
| RemoteLoadError
| RemoteInitError
| ModuleLoadError.

(** An entry of [errors]: [{ remote, module?, kind, message }]. *)
Record LoadError : Type := {
  remote : string;
  module : option string;
  kind : ErrorKind;
  message : string;
}.

Section Loader.
(** The values of loaded modules. *)
Variable Value : Type.

(** A loaded remote: the module paths it exposes, and [get(name)] followed
    by the evaluation of the factory it yields, which gives the module or
    fails with a message. *)
Record RemoteContainer : Type := {
  moduleNameList : list string;
  get : string → string + Value;
}.

(** The outcome of [RemoteContainerRegistry.resolve(descriptor)]. *)
Inductive Resolution : Type :=
| Resolved (container : RemoteContainer)
| Failed (kind : ErrorKind) (message : string).

Variable resolve : RemoteDescriptor → Resolution.

Record Result : Type := {
  loaded : gmap string Value;
  errors : list LoadError;
}.

(** The exposed path without its leading [./]: the scenario of section 8
    names the modules [./A] and [./B] of [app1] as [app1/A] and [app1/B]. *)
Definition moduleName (path : string) : string :=
  match path with
  | String "." (String "/" rest) => rest
  | _ => path
  end.

Definition moduleKey (remoteName path : string) : string :=
  remoteName +:+ "/" +:+ moduleName path.

(** Step 4 for one remote: every exposed module is loaded; a module that
    fails is recorded and the others are still loaded. *)
Definition loadModules (remoteName : string) (container : RemoteContainer) :
    list (string * Value) * list LoadError :=
  foldr (λ path '(modules, failures),
    match get container path with
    | inr value => ((moduleKey remoteName path, value) :: modules, failures)
    | inl message =>
        (modules,
         {| remote := remoteName; module := Some path;
            kind := ModuleLoadError; message := message |} :: failures)
    end) ([], []) (moduleNameList container).

(** Steps 2 to 4 for one entry of the remote map. *)
Definition loadRemote (entry : string * (string * option string)) :
    list (string * Value) * list LoadError :=
  let '(remoteName, (url, scope)) := entry in
  match resolve {| name := remoteName; entryUrl := url; scope := scope |} with
  | Resolved container => loadModules remoteName container
  | Failed kind message =>
      ([], [ {| remote := remoteName; module := None;
                kind := kind; message := message |} ])
  end.

(** Modelled from the spec: [dynamicLoad] is documented, its code is not
    among the sources. Following section 4.7: every entry of the remote map
    is resolved, every module of every resolved remote is loaded, the loaded
    modules are aggregated under ["remoteName/moduleName"], and a failure of
    a remote or of a module is recorded in [errors] without ending the sweep.
    The loads of distinct remotes are independent, so the order in which the
    map is walked only shows in the order of [errors]. *)
Definition dynamicLoad (remoteUrlMap : gmap string (string * option string)) :
    Completion Result :=
  let outcomes := loadRemote <$> map_to_list remoteUrlMap in
  Return {| loaded := list_to_map (concat (fst <$> outcomes));
            errors := concat (snd <$> outcomes) |}.

End Loader.
End DynamicLoad.

(** ** Readings of the specification that the theorems compare with the code *)

Module AsStated.
Import SharedConfig Sharing ModuleFederationPluginOptions Server.

(** Every entry yields no provided record when its import is [false], and
    otherwise exactly one, keyed by its import, or by its key when it has no
    import; the provides are these records, all of them, in order. *)
Definition provides_keyed_by_import (sharedOptions : list (string * SharedConfig.t)) :
    Prop :=
  ∃ groups : list (list (string * ProvidesConfig.t)),
    provides sharedOptions = concat groups ∧
    Forall2 (λ '(key, options) group,
      match import options with
      | Some ImportFalse => group = []
      | Some (ImportRequest request) => ∃ config, group = [(request, config)]
      | None => ∃ config, group = [(key, config)]
      end) sharedOptions groups.

(** Every entry yields one consumed record under its key, whose share key is
    the entry's when it gives one and the key otherwise. *)
Definition consumes_shareKey_when_given
    (sharedOptions : list (string * SharedConfig.t)) : Prop :=
  Forall2 (λ '(key, options) '(key', config),
    key' = key ∧
    ConsumesConfig.shareKey config = default key (shareKey options))
    sharedOptions (consumes sharedOptions).

(** The records derived from an entry that gives no share scope have the
    share scope ["default"]. *)
Definition shareScope_defaults (sharedOptions : list (string * SharedConfig.t)) :
    Prop :=
  Forall2 (λ '(_, options) '(_, config),
    SharedConfig.shareScope options = None →
    ConsumesConfig.shareScope config = Some "default")
    sharedOptions (consumes sharedOptions) ∧
  Forall2 (λ '(_, options) '(_, config),
    SharedConfig.shareScope options = None →
    ProvidesConfig.shareScope config = Some "default")
    (List.filter (λ '(_, options), import_is_not_false options) sharedOptions)
    (provides sharedOptions).

(** The request names one of the three packages, or a configured key whose
    import is not [false]. *)
Definition names_internal_module (options : ModuleFederationPluginOptions.t)
    (request : string) : Prop :=
  includes request "@module-federation/utilities" = true ∨
  includes request "internal-delegate-hoist" = true ∨
  includes request "@module-federation/dashboard-plugin" = true ∨
  ∃ key, key ∈ keys (shared options) ∧
         import_not_false (shared options) key = true ∧
         includes request key = true.

(** The request token of a result [type request] starts with [next] or
    [react]. *)
Definition from_next_or_react (result : string) : bool :=
  match split " " result !! 1 with
  | Some req => startsWith req "next" || startsWith req "react"
  | None => false
  end.

(** The replacement returns [undefined] without a call for a request that
    names an internal module; for any other request it calls the original
    and keeps its result only when that comes from next or react. *)
Definition externals_patch (options : ModuleFederationPluginOptions.t)
    (originalExternals : ExternalsFunction) (ctx : ExternalsContext)
    (calls : list ExternalsContext) : Prop :=
  let patched := patchedExternals options (ExternalFunction originalExternals) in
  ((∃ request, Server.request ctx = Some request ∧
               names_internal_module options request) →
   patched ctx calls = (Return None, calls)) ∧
  (¬ (∃ request, Server.request ctx = Some request ∧
                 names_internal_module options request) →
   ∀ fromNext calls',
     originalExternals ctx (calls ++ [ctx]) = (Return fromNext, calls') →
     patched ctx calls =
       (Return (match fromNext with
                | Some result =>
                    if from_next_or_react result then Some result else None
                | None => None
                end), calls')).

(** Parsing the share list of a declaration, presented as an object, gives
    that share list again. *)
Definition parser_idempotent (isRequiredVersion : string → bool)
    (shared : Shared) : Prop :=
  ∀ parsed,
    sharedOptions isRequiredVersion shared = Return parsed →
    sharedOptions isRequiredVersion (as_declaration parsed) = Return parsed.

(** Every module that loads from a remote that resolves is in [loaded],
    under its key and with its value. *)
Definition every_loaded_module_is_kept {Value : Type}
    (resolve : DynamicLoad.RemoteDescriptor → DynamicLoad.Resolution Value)
    (remoteUrlMap : gmap string (string * option string))
    (result : DynamicLoad.Result Value) : Prop :=
  ∀ remoteName url scope container path value,
    remoteUrlMap !! remoteName = Some (url, scope) →
    resolve {| DynamicLoad.name := remoteName; DynamicLoad.entryUrl := url;
               DynamicLoad.scope := scope |} =
      DynamicLoad.Resolved Value container →
    path ∈ DynamicLoad.moduleNameList Value container →
    DynamicLoad.get Value container path = inr value →
    DynamicLoad.loaded Value result !! DynamicLoad.moduleKey remoteName path =
      Some value.

End AsStated.

(** ** Sample instances of the parameters, for the examples *)

Module Sample.

(** A reading of [isRequiredVersion]: the string starts with a digit or with
    one of [^ = v < > ~]. *)
Definition isRequiredVersion (s : string) : bool :=
  match s with
  | String c _ =>
      bool_decide (c ∈ String.list_ascii_of_string "0123456789^=v<>~")
  | EmptyString => false
  end.

(** [{ import: '' }] *)
Definition empty_import : SharedConfig.t :=
  SharedConfig.mk None (Some (SharedConfig.ImportRequest EmptyString))
    None None None None None None None.

(** [{ shareKey: '' }] *)
Definition empty_shareKey : SharedConfig.t :=
  SharedConfig.mk None None None None (Some EmptyString) None None None None.

(** A reading of [path.basename]: what follows the last [/]. *)
Definition basename (path : string) : string :=
  List.last (split "/" path) path.

(** [{ react: '^18.0.0', './lib': './lib', moment: { shareKey: 'm',
    import: false } }] *)
Definition shared : Sharing.Shared :=
  Sharing.SharedObject
    [("react", Sharing.Simple (Sharing.ItemString "^18.0.0"));
     ("./lib", Sharing.Simple (Sharing.ItemString "./lib"));
     ("moment",
      Sharing.Options
        (SharedConfig.mk None (Some SharedConfig.ImportFalse) None None
           (Some "m") None None None None))].

(** [{ react: ['^17.0.0', '^18.0.0'] }] *)
Definition shared_with_array : Sharing.Shared :=
  Sharing.SharedObject
    [("react", Sharing.Simple (Sharing.ItemArray ["^17.0.0"; "^18.0.0"]))].

(** [app1] resolves and exposes [./A] and [./B], which load; the entry of
    any other remote cannot be fetched. *)
Definition resolve (descriptor : DynamicLoad.RemoteDescriptor) :
    DynamicLoad.Resolution string :=
  if bool_decide (DynamicLoad.name descriptor = "app1")
  then DynamicLoad.Resolved string
         {| DynamicLoad.moduleNameList := ["./A"; "./B"];
            DynamicLoad.get := λ path, inr ("module " +:+ path) |}
  else DynamicLoad.Failed string DynamicLoad.RemoteLoadError "fetch failed".

(** [{ app1: url1, app2: url2 }] *)
Definition remoteUrlMap : gmap string (string * option string) :=
  {[ "app1" := ("http://localhost:3001/remoteEntry.js", None);
     "app2" := ("http://localhost:3002/remoteEntry.js", None) ]}.

(** The options of a host: [{ name: 'host', filename:
    'static/chunks/remoteEntry.js', shared }]. *)
Definition options (shared : option Sharing.Shared) :
    ModuleFederationPluginOptions.t :=
  ModuleFederationPluginOptions.mk (Some "host")
    (Some "static/chunks/remoteEntry.js") None None None shared None.

(** An externals function that makes every request an external of type
    [commonjs] found under [next]. *)
Definition next_externals : Server.ExternalsFunction :=
  λ ctx calls, (Return (Some "commonjs next/router"), calls).

(** An externals function that answers with a bare module name. *)
Definition bare_externals : Server.ExternalsFunction :=
  λ ctx calls, (Return (Some "lodash"), calls).

End Sample.

(** ** Further vocabulary and samples *)

Module Scenario.
Import SharedConfig Sharing ModuleFederationPluginOptions Server.

(** Lines 118-130: the condition under which the replacement returns at
    once, [ctx.request && (...)]. *)
Definition bundled (options : ModuleFederationPluginOptions.t)
    (ctx : ExternalsContext) : bool :=
  match request ctx with
  | Some request => truthy request && treated_as_internal options request
  | None => false
  end.

(** An externals function whose promise is rejected. *)
Definition failing_externals : ExternalsFunction :=
  λ ctx calls, (Throw (Error "Cannot resolve"), calls).

(** [{ name: 'host', shared: ['react'] }], without a filename. *)
Definition options_without_filename : ModuleFederationPluginOptions.t :=
  ModuleFederationPluginOptions.mk (Some "host") None None None None
    (Some (SharedArray ["react"])) None.

(** [app1] resolves and exposes [./A] and [A], which load; the entry of
    any other remote cannot be fetched. *)
Definition resolve_same_name (descriptor : DynamicLoad.RemoteDescriptor) :
    DynamicLoad.Resolution string :=
  if bool_decide (DynamicLoad.name descriptor = "app1")
  then DynamicLoad.Resolved string
         {| DynamicLoad.moduleNameList := ["./A"; "A"];
            DynamicLoad.get := λ path, inr ("module " +:+ path) |}
  else DynamicLoad.Failed string DynamicLoad.RemoteLoadError "fetch failed".

End Scenario.


(** * Facts *)

(** ** Loops that may throw *)

Lemma forEach_cons {A B} (f : A → Completion B) a l :
  forEach f (a :: l) =
  match f a with
  | Return b =>
      match forEach f l with
      | Return bs => Return (b :: bs)
      | Throw e => Throw e
      end
  | Throw e => Throw e
  end.
Proof. reflexivity. Qed.

(** A loop returns exactly when every step does, with the results in order. *)
Lemma forEach_Return {A B} (f : A → Completion B) l bs :
  forEach f l = Return bs ↔ Forall2 (λ a b, f a = Return b) l bs.
Proof.
  revert bs. induction l as [|a l IH]; intros bs.
  - simpl. split.
    + intros [= <-]. constructor.
    + intros H. inversion H. reflexivity.
  - rewrite forEach_cons. split.
    + destruct (f a) as [b|e] eqn:Hfa; [|discriminate].
      destruct (forEach f l) as [bs'|e] eqn:Hl; [|discriminate].
      intros [= <-]. constructor; [exact Hfa|]. by apply IH.
    + intros H. inversion H as [|? b ? bs' Hfa Hrest]; subst.
      rewrite Hfa. apply IH in Hrest. by rewrite Hrest.
Qed.

(** A loop whose steps can only throw [e] throws [e] as soon as one step
    does. *)
Lemma forEach_Throw {A B} (f : A → Completion B) l e :
  (∀ a e', f a = Throw e' → e' = e) →
  (∃ a, a ∈ l ∧ f a = Throw e) →
  forEach f l = Throw e.
Proof.
  intros Honly [a [Hin Ha]]. induction l as [|a0 l IH].
  - by apply elem_of_nil in Hin.
  - rewrite forEach_cons. destruct (f a0) as [b|e'] eqn:Hfa0.
    + apply elem_of_cons in Hin as [->|Hin]; [congruence|].
      by rewrite (IH Hin).
    + by rewrite (Honly _ _ Hfa0).
Qed.

(** A loop whose steps all return, returns. *)
Lemma forEach_total {A B} (f : A → Completion B) l :
  Forall (λ a, ∃ b, f a = Return b) l → ∃ bs, forEach f l = Return bs.
Proof.
  induction 1 as [|a l [b Hb] _ [bs Hbs]].
  - by exists [].
  - exists (b :: bs). by rewrite forEach_cons, Hb, Hbs.
Qed.

(** ** Strings *)

Lemma prefix_app (p s : string) :
  String.prefix p s = true ↔ ∃ rest, s = p +:+ rest.
Proof.
  revert s. induction p as [|c p IH]; intros s.
  - destruct s; (split; [intros _; eexists; reflexivity|done]).
  - destruct s as [|c' s].
    + split; [done|]. intros [rest [=]].
    + change (String.prefix (String c p) (String c' s))
        with (if Ascii.ascii_dec c c' then String.prefix p s else false).
      change (String c p +:+ ?r) with (String c (p +:+ r)).
      destruct (Ascii.ascii_dec c c') as [->|Hne].
      * rewrite IH. split; intros [rest H]; exists rest.
        -- change (String c' p +:+ rest) with (String c' (p +:+ rest)). congruence.
        -- change (String c' p +:+ rest) with (String c' (p +:+ rest)) in H. congruence.
      * split; [done|]. intros [rest H].
        change (String c p +:+ rest) with (String c (p +:+ rest)) in H. congruence.
Qed.

Lemma includes_unfold (s sub : string) :
  includes s sub =
  String.prefix sub s ||
  match s with
  | EmptyString => false
  | String _ s' => includes s' sub
  end.
Proof. destruct s; reflexivity. Qed.

(** [includes s sub] holds exactly when [sub] occurs in [s]. *)
Lemma includes_spec (s sub : string) :
  includes s sub = true ↔ ∃ before after, s = before +:+ sub +:+ after.
Proof.
  induction s as [|c s IH]; rewrite includes_unfold.
  - rewrite orb_false_r, prefix_app. split.
    + intros [rest H]. by exists EmptyString, rest.
    + intros [before [after H]]. destruct before; [by exists after|done].
  - rewrite orb_true_iff, IH, prefix_app. split.
    + intros [[rest H]|[before [after H]]].
      * by exists EmptyString, rest.
      * exists (String c before), after.
        change (String c before +:+ ?r) with (String c (before +:+ r)).
        by rewrite H.
    + intros [[|c' before] [after H]].
      * left. by exists after.
      * right. exists before, after.
        change (String c' before +:+ ?r) with (String c' (before +:+ r)) in H.
        congruence.
Qed.

Lemma truthy_spec (s : string) : truthy s = true ↔ s ≠ EmptyString.
Proof. destruct s; simpl; split; done. Qed.

Lemma or_else_spec (o : option string) (d : string) :
  (∀ s, o = Some s → s ≠ EmptyString → or_else o d = s) ∧
  (o = None ∨ o = Some EmptyString → or_else o d = d).
Proof.
  split.
  - intros s -> Hs. simpl. by destruct s.
  - intros [->| ->]; reflexivity.
Qed.

Lemma or_else_nonempty (o : option string) (d : string) :
  d ≠ EmptyString → or_else o d ≠ EmptyString.
Proof. intros Hd. destruct o as [[|c s]|]; simpl; done. Qed.

(** ** Objects *)

Section JsObjectFacts.
Import JsObject.
Context {V : Type}.

(** An array index is the decimal form of its value. *)
Lemma array_index_pretty key index :
  array_index key = Some index → pretty index = key.
Proof.
  unfold array_index. destruct (decimal key) as [n|]; [|discriminate].
  destruct (bool_decide_reflect (pretty n = key)) as [Heq|]; [|discriminate].
  simpl. destruct (n <? 4294967295)%N; [|discriminate]. by intros [= <-].
Qed.

(** A property with an index above all others is added last. *)
Lemma set_indexed_last index (value : V) properties :
  Forall (λ property, (property.1 < index)%N) properties →
  set_indexed index value properties = properties ++ [(index, value)].
Proof.
  induction 1 as [|[i v] rest Hlt _ IH]; [done|]. simpl in *.
  assert ((index <? i)%N = false) as -> by (apply N.ltb_ge; lia).
  assert ((index =? i)%N = false) as -> by (apply N.eqb_neq; lia).
  by rewrite IH.
Qed.

(** A property with a new name is added last. *)
Lemma set_named_fresh key (value : V) properties :
  key ∉ properties.*1 →
  set_named key value properties = properties ++ [(key, value)].
Proof.
  induction properties as [|[k v] rest IH]; [done|].
  rewrite fmap_cons, not_elem_of_cons. simpl. intros [Hne Hrest].
  rewrite bool_decide_eq_false_2 by done. by rewrite IH.
Qed.

Lemma foldl_set_indexed (pairs : list (string * V)) indices properties names :
  Forall2 (λ pair index, array_index pair.1 = Some index) pairs indices →
  StronglySorted N.lt indices →
  Forall (λ property, Forall (λ index, (property.1 < index)%N) indices)
    properties →
  ∃ properties',
    foldl (λ obj '(key, value), set obj key value) (mk properties names) pairs =
      mk properties' names ∧
    (λ '(index, value), (pretty index, value)) <$> properties' =
      ((λ '(index, value), (pretty index, value)) <$> properties) ++ pairs.
Proof.
  intros Hall. revert properties.
  induction Hall as [|[key value] index pairs indices Hkey _ IH];
    intros properties Hsorted Hbelow.
  - exists properties. by rewrite app_nil_r.
  - simpl in Hkey. apply StronglySorted_inv in Hsorted as [Hsorted Hhead].
    simpl. unfold set at 2. rewrite Hkey. simpl.
    rewrite set_indexed_last.
    2:{ eapply Forall_impl; [exact Hbelow|]. intros p Hp.
        by apply Forall_cons in Hp as [? _]. }
    destruct (IH (properties ++ [(index, value)])) as [properties' [Hfold Hentries]];
      [done| |].
    + apply Forall_app. split.
      * eapply Forall_impl; [exact Hbelow|]. intros p Hp.
        by apply Forall_cons in Hp as [_ ?].
      * constructor; [|done]. exact Hhead.
    + exists properties'. split; [exact Hfold|].
      rewrite Hentries, fmap_app. simpl.
      rewrite (array_index_pretty _ _ Hkey). by rewrite <- app_assoc.
Qed.

Lemma foldl_set_named (pairs : list (string * V)) properties names :
  Forall (λ pair, array_index pair.1 = None) pairs →
  NoDup (names.*1 ++ pairs.*1) →
  foldl (λ obj '(key, value), set obj key value) (mk properties names) pairs =
  mk properties (names ++ pairs).
Proof.
  intros Hall. revert names.
  induction Hall as [|[key value] pairs Hkey _ IH]; intros names Hnodup.
  - simpl. by rewrite app_nil_r.
  - simpl in Hkey. simpl. unfold set at 2. rewrite Hkey. simpl.
    rewrite fmap_cons in Hnodup. simpl in Hnodup.
    rewrite set_named_fresh.
    2:{ apply NoDup_app in Hnodup as [_ [Hdisjoint _]].
        intros Hin. apply (Hdisjoint key Hin). by left. }
    rewrite IH.
    + by rewrite <- app_assoc.
    + rewrite fmap_app. simpl. by rewrite <- app_assoc.
Qed.

(** Pairs whose keys are distinct and in property order are the entries of
    the object made from them. *)
Lemma entries_fromEntries (pairs : list (string * V)) :
  property_order pairs.*1 → entries (fromEntries pairs) = pairs.
Proof.
  intros (index_keys & indices & names & Hkeys & Hindex & Hsorted & Hnames & Hnodup).
  apply fmap_app_inv in Hkeys as (ipairs & npairs & -> & -> & ->).
  unfold fromEntries. rewrite foldl_app.
  assert (Forall2 (λ (pair : string * V) index, array_index pair.1 = Some index)
            ipairs indices) as Hipairs by (by apply Forall2_fmap_l in Hindex).
  assert (Forall (λ pair : string * V, array_index pair.1 = None) npairs)
    as Hnpairs by (by apply Forall_fmap in Hnames).
  destruct (foldl_set_indexed ipairs indices [] [] Hipairs Hsorted
              ltac:(constructor)) as [properties [-> Hentries]].
  rewrite foldl_set_named; [|done|done].
  unfold entries. simpl. by rewrite Hentries.
Qed.

End JsObjectFacts.

(** ** The share list *)

Section SharePluginFacts.
Import SharedConfig Sharing.
Variable isRequiredVersion : string → bool.

(** The callback returns on every string. *)
Lemma normalizeSimple_string item key :
  ∃ config,
    normalizeSimple isRequiredVersion (ItemString item) key = Return config ∧
    only_import_and_requiredVersion config ∧
    (item = key ∨ isRequiredVersion item = false →
     import config = Some (ImportRequest item) ∧ requiredVersion config = None) ∧
    (item ≠ key ∧ isRequiredVersion item = true →
     import config = Some (ImportRequest key) ∧
     requiredVersion config = Some (VersionString item)).
Proof.
  eexists. split; [reflexivity|]. unfold only_import_and_requiredVersion. simpl.
  destruct (bool_decide_reflect (item = key)) as [Heq|Hne];
    destruct (isRequiredVersion item); simpl;
    repeat split; try done; intuition congruence.
Qed.

(** The callback throws on every array, always the same error. *)
Lemma normalizeSimple_Throw item key e :
  normalizeSimple isRequiredVersion item key = Throw e ↔
  (∃ items, item = ItemArray items) ∧ e = Error "Unexpected array in shared".
Proof.
  destruct item as [item|items]; simpl; split.
  - discriminate.
  - intros [[items [=]] _].
  - intros [= <-]. eauto.
  - intros [_ ->]. reflexivity.
Qed.

(** The share list pairs every entry of the declaration, in order, with its
    normal form. *)
Lemma sharedOptions_Return shared parsed :
  sharedOptions isRequiredVersion shared = Return parsed ↔
  Forall2 (λ '(key, value) '(key', config),
    key' = key ∧
    match value with
    | Simple item => normalizeSimple isRequiredVersion item key = Return config
    | Options item => config = item
    end) (entries shared) parsed.
Proof.
  unfold sharedOptions, parseOptions. rewrite forEach_Return.
  split; intros H; (eapply Forall2_impl; [exact H|]);
    intros [key value] [key' config]; destruct value as [item|item]; simpl;
    unfold normalizeOptions;
    try (destruct (normalizeSimple isRequiredVersion item key) as [c|e]; simpl);
    try discriminate; try (intros [= -> ->]; done);
    try (intros [-> [= ->]]; done); try (intros [-> ->]; done);
    try (intros [_ [=]]).
Qed.

(** Without array values, the share list is produced. *)
Lemma sharedOptions_total shared :
  Forall (λ entry, is_array_value entry.2 = false) (entries shared) →
  ∃ parsed, sharedOptions isRequiredVersion shared = Return parsed.
Proof.
  intros Hwf. unfold sharedOptions, parseOptions. apply forEach_total.
  eapply Forall_impl; [exact Hwf|]. intros [key [[item|items]|item]] H.
  - simpl. eauto.
  - discriminate.
  - eauto.
Qed.

(** The keys of the share list are the keys of the declaration. *)
Lemma sharedOptions_keys shared parsed :
  sharedOptions isRequiredVersion shared = Return parsed →
  parsed.*1 = (entries shared).*1.
Proof.
  rewrite sharedOptions_Return. induction 1 as [|[k v] [k' c] l l' [-> _] _ IH].
  - reflexivity.
  - rewrite !fmap_cons. simpl. by f_equal.
Qed.

(** An options object is its own normal form: the share list of an object
    from keys to options objects is the list of its entries. *)
Lemma sharedOptions_of_options parsed :
  sharedOptions isRequiredVersion
    (SharedObject (map (λ '(key, options), (key, Options options)) parsed)) =
  Return parsed.
Proof.
  apply sharedOptions_Return. simpl. induction parsed as [|[key config] l IH].
  - constructor.
  - simpl. constructor; [done|exact IH].
Qed.

(** A share list whose keys are distinct and in property order is presented
    as the object of its own pairs. *)
Lemma as_declaration_in_property_order parsed :
  JsObject.property_order parsed.*1 →
  as_declaration parsed =
  SharedObject (map (λ '(key, options), (key, Options options)) parsed).
Proof.
  intros Horder. unfold as_declaration. f_equal.
  apply entries_fromEntries.
  replace ((map (λ '(key, options), (key, Options options)) parsed).*1)
    with parsed.*1; [done|].
  clear Horder. induction parsed as [|[key config] l IH]; [done|].
  simpl in *. by f_equal.
Qed.

(** A constructed plugin holds the consumes and provides of its share list. *)
Lemma constructor_Return options plugin :
  constructor isRequiredVersion options = Return plugin ↔
  ∃ parsed,
    sharedOptions isRequiredVersion (shared options) = Return parsed ∧
    plugin = {| _shareScope := Sharing.shareScope options;
                _consumes := consumes parsed;
                _provides := provides parsed |}.
Proof.
  unfold constructor.
  destruct (sharedOptions isRequiredVersion (shared options)) as [parsed|e]; simpl.
  - split; [intros [= <-]; eauto|intros [? [[= <-] ->]]; done].
  - split; [discriminate|intros [? [[=] _]]].
Qed.

End SharePluginFacts.

Section SharePluginClaims.
Import SharedConfig Sharing.
Variable isRequiredVersion : string → bool.

(** C1. In a declaration without array values, the share list is produced
    and every bare string entry [(key, item)] is classified at its position:
    when the item is the key or does not look like a version range, the
    config has [import = item] and no [requiredVersion]; otherwise it has
    [import = key] and [requiredVersion = item]. *)
Theorem bare_string_entry_classified shared i key item :
  Forall (λ entry, is_array_value entry.2 = false) (entries shared) →
  entries shared !! i = Some (key, Simple (ItemString item)) →
  ∃ parsed config,
    sharedOptions isRequiredVersion shared = Return parsed ∧
    parsed !! i = Some (key, config) ∧
    (item = key ∨ isRequiredVersion item = false →
     import config = Some (ImportRequest item) ∧ requiredVersion config = None) ∧
    (item ≠ key ∧ isRequiredVersion item = true →
     import config = Some (ImportRequest key) ∧
     requiredVersion config = Some (VersionString item)).
Proof.
  intros Hwf Hi.
  destruct (sharedOptions_total isRequiredVersion shared Hwf) as [parsed Hparsed].
  pose proof Hparsed as Hall. apply sharedOptions_Return in Hall.
  destruct (Forall2_lookup_l _ _ _ _ _ Hall Hi) as [[key' config] [Hp [-> Hc]]].
  destruct (normalizeSimple_string isRequiredVersion item key)
    as [config' [Hc' [_ [Himport Hversion]]]].
  assert (Return config' = Return config) as [= ->]
    by (rewrite <- Hc'; exact Hc).
  exists parsed, config. auto.
Qed.

(** C4. When an entry of the declaration has an array for its value, the
    constructor throws the error of the callback and no plugin, hence no
    consumes and no provides, is produced. *)
Theorem array_value_throws options :
  Exists (λ entry, is_array_value entry.2 = true) (entries (shared options)) →
  constructor isRequiredVersion options =
    Throw (Error "Unexpected array in shared").
Proof.
  intros Harr. unfold constructor, sharedOptions, parseOptions.
  rewrite (forEach_Throw _ _ (Error "Unexpected array in shared")); [done| |].
  - intros [key [item|item]] e; simpl; [|discriminate].
    destruct (normalizeSimple isRequiredVersion item key) as [c|e'] eqn:H;
      simpl; [discriminate|].
    intros [= <-]. by apply normalizeSimple_Throw in H as [_ ->].
  - apply Exists_exists in Harr as [[key value] [Hin Hv]].
    exists (key, value). split; [exact Hin|].
    destruct value as [[item|items]|item]; try discriminate. reflexivity.
Qed.

(** C6. When every key of the declaration is a non-empty string, every
    consumed and every provided record of the constructed plugin has a
    non-empty share key. *)
Theorem shareKey_never_empty options plugin :
  Forall (λ key, key ≠ EmptyString) (entries (shared options)).*1 →
  constructor isRequiredVersion options = Return plugin →
  Forall (λ record, ConsumesConfig.shareKey record.2 ≠ EmptyString)
    (_consumes plugin) ∧
  Forall (λ record, ProvidesConfig.shareKey record.2 ≠ EmptyString)
    (_provides plugin).
Proof.
  intros Hkeys [parsed [Hparsed ->]]%constructor_Return.
  rewrite <- (sharedOptions_keys _ _ _ Hparsed) in Hkeys. clear Hparsed.
  simpl. unfold consumes, provides.
  induction parsed as [|[key options'] l IH]; [by split; constructor|].
  rewrite fmap_cons in Hkeys. apply Forall_cons in Hkeys as [Hkey Hl].
  destruct (IH Hl) as [IHc IHp]. split.
  - simpl. constructor; [|exact IHc]. simpl. by apply or_else_nonempty.
  - simpl. destruct (import_is_not_false options'); [|exact IHp].
    simpl. constructor; [|exact IHp]. simpl. by apply or_else_nonempty.
Qed.

(** C7, as the code has it. For a declaration whose keys are pairwise
    distinct and stand in property order, as the keys of an object do, the
    share list presented as an object from each key to its options object
    has the entries of the share list, and parsed again it gives the same
    share list. *)
Theorem sharedOptions_idempotent shared parsed :
  JsObject.property_order (entries shared).*1 →
  sharedOptions isRequiredVersion shared = Return parsed →
  entries (as_declaration parsed) =
    map (λ '(key, options), (key, Options options)) parsed ∧
  sharedOptions isRequiredVersion (as_declaration parsed) = Return parsed.
Proof.
  intros Horder Hparsed.
  rewrite <- (sharedOptions_keys _ _ _ Hparsed) in Horder.
  rewrite (as_declaration_in_property_order _ Horder).
  split; [reflexivity|apply sharedOptions_of_options].
Qed.

(** C5, as the code has it. No optional field is defaulted: the share list
    carries for an options object that object, and for a bare string a
    config in which only [import] and [requiredVersion] may be defined; so
    the share scope of an entry that gives none is [undefined], and every
    consumed and every provided record copies the share scope of its entry
    as it is. *)
Theorem shareScope_copied options plugin :
  constructor isRequiredVersion options = Return plugin →
  ∃ parsed,
    sharedOptions isRequiredVersion (shared options) = Return parsed ∧
    Forall2 (λ entry pair,
      pair.1 = entry.1 ∧
      match entry.2 with
      | Options item => pair.2 = item
      | Simple _ => only_import_and_requiredVersion pair.2
      end)
      (entries (shared options)) parsed ∧
    Forall2 (λ pair record,
      ConsumesConfig.shareScope record.2 = SharedConfig.shareScope pair.2)
      parsed (_consumes plugin) ∧
    Forall2 (λ pair record,
      ProvidesConfig.shareScope record.2 = SharedConfig.shareScope pair.2)
      (List.filter (λ '(_, options), import_is_not_false options) parsed)
      (_provides plugin).
Proof.
  intros [parsed [Hparsed ->]]%constructor_Return.
  exists parsed. split; [exact Hparsed|]. split; [|split].
  - apply sharedOptions_Return in Hparsed.
    eapply Forall2_impl; [exact Hparsed|].
    intros [key value] [key' config] [-> Hc]. split; [done|]. simpl.
    destruct value as [item|item]; simpl; [|by subst].
    destruct item as [item|items]; [|discriminate].
    destruct (normalizeSimple_string isRequiredVersion item key)
      as [config' [Hc' [Honly _]]].
    assert (Return config' = Return config) as [= <-]
      by (rewrite <- Hc'; exact Hc).
    exact Honly.
  - simpl. unfold consumes. clear Hparsed.
    induction parsed as [|[key config] l IH]; simpl; constructor; done.
  - simpl. unfold provides. clear Hparsed.
    induction (List.filter (λ '(_, options), import_is_not_false options) parsed)
      as [|[key config] l IH]; simpl; constructor; done.
Qed.

End SharePluginClaims.

Section ShareListClaims.
Import SharedConfig Sharing.

(** C3, as the code has it. Every entry of the share list, provided or not,
    yields exactly one consumed record, at its position and under its key.
    Its share key is the entry's when that is given and not empty and the
    key otherwise, and the other fields are those of the entry. *)
Theorem consumes_one_per_entry (sharedOptions : list (string * SharedConfig.t)) :
  Forall2 (λ '(key, options) '(key', config),
    key' = key ∧
    (∀ s, shareKey options = Some s → s ≠ EmptyString →
          ConsumesConfig.shareKey config = s) ∧
    (shareKey options = None ∨ shareKey options = Some EmptyString →
     ConsumesConfig.shareKey config = key) ∧
    ConsumesConfig.import config = import options ∧
    ConsumesConfig.shareScope config = SharedConfig.shareScope options ∧
    ConsumesConfig.requiredVersion config = requiredVersion options ∧
    ConsumesConfig.strictVersion config = strictVersion options ∧
    ConsumesConfig.singleton config = singleton options ∧
    ConsumesConfig.packageName config = packageName options ∧
    ConsumesConfig.eager config = eager options)
    sharedOptions (consumes sharedOptions).
Proof.
  unfold consumes. induction sharedOptions as [|[key options] l IH]; simpl.
  - constructor.
  - constructor; [|exact IH]. simpl.
    destruct (or_else_spec (shareKey options) key) as [Hgiven Hdefault].
    repeat split; assumption.
Qed.

(** C3 fails as stated: an entry whose share key is given as the empty
    string is consumed under the share key of its declaration key. *)
Lemma consumes_shareKey_when_given_fails :
  sharedOptions Sample.isRequiredVersion
    (SharedObject [("a", Options Sample.empty_shareKey)]) =
    Return [("a", Sample.empty_shareKey)] ∧
  ¬ AsStated.consumes_shareKey_when_given [("a", Sample.empty_shareKey)].
Proof.
  split; [reflexivity|]. unfold AsStated.consumes_shareKey_when_given.
  intros H. inversion H as [|? ? ? ? Hhead _]; subst.
  destruct Hhead as [_ Hkey]. discriminate Hkey.
Qed.

Lemma provides_cons key options (l : list (string * SharedConfig.t)) :
  provides ((key, options) :: l) =
  (if import_is_not_false options
   then [(import_or_key options key,
          {| ProvidesConfig.shareKey := or_else (shareKey options) key;
             ProvidesConfig.shareScope := SharedConfig.shareScope options;
             ProvidesConfig.version := version options;
             ProvidesConfig.eager := eager options |})]
   else []) ++ provides l.
Proof.
  unfold provides. simpl. by destruct (import_is_not_false options).
Qed.

(** C2, as the code has it. Every entry of the share list yields no
    provided record when its import is [false] and exactly one otherwise,
    keyed by its import when that is a non-empty string and by its key when
    the import is absent or empty; the provides are these records, all of
    them, in the order of the entries, whether or not two of them have the
    same key. *)
Theorem provides_one_per_provided_entry
    (sharedOptions : list (string * SharedConfig.t)) :
  ∃ groups : list (list (string * ProvidesConfig.t)),
    provides sharedOptions = concat groups ∧
    Forall2 (λ '(key, options) group,
      match import options with
      | Some ImportFalse => group = []
      | imported =>
          ∃ path config,
            group = [(path, config)] ∧
            (∀ request, imported = Some (ImportRequest request) →
                        request ≠ EmptyString → path = request) ∧
            (imported = None ∨ imported = Some (ImportRequest EmptyString) →
             path = key) ∧
            ProvidesConfig.shareKey config = or_else (shareKey options) key ∧
            ProvidesConfig.shareScope config = SharedConfig.shareScope options ∧
            ProvidesConfig.version config = version options ∧
            ProvidesConfig.eager config = eager options
      end) sharedOptions groups.
Proof.
  induction sharedOptions as [|[key options] l IH].
  - exists []. split; [reflexivity|constructor].
  - destruct IH as [groups [Hconcat Hall]]. rewrite provides_cons, Hconcat.
    unfold import_is_not_false, import_or_key.
    destruct (import options) as [[|request]|] eqn:Himport.
    + exists ([] :: groups). split; [reflexivity|].
      constructor; [by rewrite Himport|exact Hall].
    + eexists ([_] :: groups). split; [reflexivity|].
      constructor; [|exact Hall]. rewrite Himport.
      eexists _, _. split; [reflexivity|]. simpl.
      split; [|split; [|done]].
      * intros ? [= <-] Hne. by destruct request.
      * intros [[=]|[= ->]]. reflexivity.
    + eexists ([_] :: groups). split; [reflexivity|].
      constructor; [|exact Hall]. rewrite Himport.
      eexists _, _. split; [reflexivity|]. simpl.
      split; [intros ? [=]|done].
Qed.

(** C2 fails as stated: an entry whose import is the empty string is
    provided under its declaration key, not under its import. *)
Lemma provides_keyed_by_import_fails :
  sharedOptions Sample.isRequiredVersion
    (SharedObject [("a", Options Sample.empty_import)]) =
    Return [("a", Sample.empty_import)] ∧
  ¬ AsStated.provides_keyed_by_import [("a", Sample.empty_import)].
Proof.
  split; [reflexivity|]. intros [groups [Hconcat Hall]].
  inversion Hall as [|? group ? rest Hhead Hrest]; subst.
  destruct Hhead as [config ->]. inversion Hrest; subst. discriminate Hconcat.
Qed.

(** C5 fails as stated: the bare specifier [react] gives no share scope, and
    its consumed record has none either. *)
Lemma shareScope_defaults_fails :
  ∃ parsed,
    sharedOptions Sample.isRequiredVersion (SharedArray ["react"]) =
      Return parsed ∧
    ¬ AsStated.shareScope_defaults parsed.
Proof.
  eexists. split; [reflexivity|]. intros [Hconsumes _].
  inversion Hconsumes as [|? ? ? ? Hscope _]; subst.
  specialize (Hscope eq_refl). discriminate Hscope.
Qed.

(** C7 fails as stated. The share list of [['react', 'react']] has two
    pairs under one key, and the object made from it has one property; the
    share list of [['b', '1']] has [b] first, and the object made from it
    lists the array index [1] first. *)
Lemma parser_idempotent_fails :
  ¬ AsStated.parser_idempotent Sample.isRequiredVersion
      (SharedArray ["react"; "react"]) ∧
  ¬ AsStated.parser_idempotent Sample.isRequiredVersion
      (SharedArray ["b"; "1"]).
Proof.
  split; intros Hsame; specialize (Hsame _ eq_refl);
    vm_compute in Hsame; discriminate Hsame.
Qed.

End ShareListClaims.

(** ** The server helpers *)

Section ServerClaims.
Import Sharing ModuleFederationPluginOptions Server.

(** C10. On options whose filename is a string the call returns, and leaves
    [library] set to the commonjs-module library of the options' name,
    [filename] set to the basename of its previous value, and every other
    property as it was. *)
Theorem configureServerLibraryAndFilename_effect
    (basename : string → string) options path :
  filename options = Some path →
  ∃ options',
    configureServerLibraryAndFilename basename options = (Return (), options') ∧
    library options' =
      Some {| LibraryOptions.type := "commonjs-module";
              LibraryOptions.name := name options |} ∧
    filename options' = Some (basename path) ∧
    name options' = name options ∧
    remotes options' = remotes options ∧
    exposes options' = exposes options ∧
    shared options' = shared options ∧
    shareScope options' = shareScope options.
Proof.
  intros Hpath. unfold configureServerLibraryAndFilename. simpl.
  rewrite Hpath. eexists. split; [reflexivity|]. simpl. repeat split.
Qed.

(** The test of the replacement function is the reading of the claim. *)
Lemma treated_as_internal_spec options request :
  treated_as_internal options request = true ↔
  AsStated.names_internal_module options request.
Proof.
  unfold treated_as_internal, AsStated.names_internal_module.
  rewrite !orb_true_iff, existsb_exists. split.
  - intros [[[H|H]|[key [Hin [H1 H2]%andb_true_iff]]]|H]; auto.
    right. right. right. exists key. by rewrite list_elem_of_In.
  - intros [H|[H|[H|[key [Hin [H1 H2]]]]]]; auto.
    left. right. exists key. rewrite <- list_elem_of_In, H1, H2. done.
Qed.

(** A result without a space has no request token. *)
Lemma split_lookup_nonempty sep result req :
  split sep result !! 1 = Some req → result ≠ EmptyString.
Proof. by destruct result. Qed.

(** C9, as the code has it. The first externals entry, a function, is
    replaced by a function that, for a non-empty request naming an internal
    module, returns [undefined] and makes no call; that otherwise calls the
    original once with the same context and, when this returns, returns
    [undefined] for an absent or empty result, and for a result with a
    request token returns the result when the token starts with [next] or
    [react] and [undefined] when it does not. *)
Theorem handleServerExternals_patch compiler options originalExternals rest :
  externals compiler = ExternalsArray (ExternalFunction originalExternals :: rest) →
  ∃ patched,
    externals (handleServerExternals compiler options) =
      ExternalsArray (ExternalFunction patched :: rest) ∧
    (∀ ctx request calls,
       Server.request ctx = Some request →
       request ≠ EmptyString →
       AsStated.names_internal_module options request →
       patched ctx calls = (Return None, calls)) ∧
    (∀ ctx calls fromNext calls',
       ¬ (∃ request, Server.request ctx = Some request ∧
                     request ≠ EmptyString ∧
                     AsStated.names_internal_module options request) →
       originalExternals ctx (calls ++ [ctx]) = (Return fromNext, calls') →
       (fromNext = None ∨ fromNext = Some EmptyString →
        patched ctx calls = (Return None, calls')) ∧
       (∀ result req,
          fromNext = Some result →
          split " " result !! 1 = Some req →
          patched ctx calls =
            (Return (if startsWith req "next" || startsWith req "react"
                     then Some result else None), calls'))).
Proof.
  intros Hext. unfold handleServerExternals. rewrite Hext. simpl.
  eexists. split; [reflexivity|]. split.
  - intros ctx request calls Hreq Hne Hint. unfold patchedExternals.
    rewrite Hreq. apply truthy_spec in Hne. apply treated_as_internal_spec in Hint.
    by rewrite Hne, Hint.
  - intros ctx calls fromNext calls' Hnot Horig. unfold patchedExternals.
    assert (match Server.request ctx with
            | Some request => truthy request && treated_as_internal options request
            | None => false
            end = false) as ->.
    { destruct (Server.request ctx) as [request|] eqn:Hreq; [|done].
      apply not_true_is_false. intros [Ht Hint]%andb_true_iff.
      apply Hnot. exists request. split; [done|].
      split; [by apply truthy_spec|by apply treated_as_internal_spec]. }
    unfold call. rewrite Horig. split.
    + intros [->| ->]; reflexivity.
    + intros result req -> Htoken.
      pose proof (split_lookup_nonempty _ _ _ Htoken) as Hne.
      apply truthy_spec in Hne. rewrite Hne, Htoken. simpl.
      by destruct (startsWith req "next" || startsWith req "react").
Qed.

(** C9 fails as stated, twice. An empty request includes the empty key of
    [{ '': '1.0.0' }], and the replacement still calls the original. A
    result without a space has no request token, and the replacement throws
    where the claim has it return [undefined]. *)
Lemma externals_patch_fails :
  ¬ AsStated.externals_patch
      (Sample.options (Some (SharedObject [("", Simple (ItemString "1.0.0"))])))
      Sample.next_externals {| request := Some EmptyString |} [] ∧
  ¬ AsStated.externals_patch
      (Sample.options None)
      Sample.bare_externals {| request := Some "lodash" |} [].
Proof.
  split.
  - intros [Hinternal _]. discriminate Hinternal.
    exists EmptyString. split; [reflexivity|].
    apply treated_as_internal_spec. reflexivity.
  - intros [_ Hother].
    specialize (Hother ltac:(intros [request [[= <-] Hint]];
      apply treated_as_internal_spec in Hint; discriminate Hint)
      (Some "lodash") [ {| request := Some "lodash" |} ] eq_refl).
    discriminate Hother.
Qed.

End ServerClaims.

(** ** [dynamicLoad] *)

Section DynamicLoadClaims.
Import DynamicLoad.
Context {Value : Type} (resolve : RemoteDescriptor → Resolution Value).

(** What the sweep over the modules of one remote yields, module by
    module. *)
Lemma loadModules_spec remoteName (container : RemoteContainer Value) :
  (∀ path value,
     path ∈ moduleNameList _ container →
     get _ container path = inr value →
     (moduleKey remoteName path, value) ∈ (loadModules _ remoteName container).1) ∧
  (∀ path message,
     path ∈ moduleNameList _ container →
     get _ container path = inl message →
     {| remote := remoteName; module := Some path;
        kind := ModuleLoadError; message := message |}
       ∈ (loadModules _ remoteName container).2) ∧
  (∀ e, e ∈ (loadModules _ remoteName container).2 →
        ∃ path message,
          path ∈ moduleNameList _ container ∧
          get _ container path = inl message ∧
          e = {| remote := remoteName; module := Some path;
                 kind := ModuleLoadError; message := message |}).
Proof.
  unfold loadModules.
  induction (moduleNameList _ container) as [|p paths [IHl [IHf IHs]]]; simpl.
  - repeat split; intros; exfalso; eapply not_elem_of_nil; eauto.
  - destruct (foldr _ _ paths) as [modules failures] eqn:Hfold. simpl in *.
    destruct (get _ container p) as [message|value] eqn:Hp; simpl;
      repeat split.
    + intros path value [->|Hin]%elem_of_cons Hget; [congruence|eauto].
    + intros path message' [->|Hin]%elem_of_cons Hget.
      * assert (message' = message) as -> by congruence. left.
      * right. eauto.
    + intros e [->|Hin]%elem_of_cons.
      * exists p, message. split; [left|done].
      * destruct (IHs e Hin) as [path [message' [? [? ?]]]].
        exists path, message'. split; [by right|done].
    + intros path value' [->|Hin]%elem_of_cons Hget.
      * assert (value' = value) as -> by congruence. left.
      * right. eauto.
    + intros path message [->|Hin]%elem_of_cons Hget; [congruence|eauto].
    + intros e Hin. destruct (IHs e Hin) as [path [message' [? [? ?]]]].
      exists path, message'. split; [by right|done].
Qed.

(** Every error recorded for an entry of the remote map names its remote. *)
Lemma loadRemote_remote entry :
  Forall (λ e, remote e = entry.1) (loadRemote _ resolve entry).2.
Proof.
  destruct entry as [remoteName [url scope]]. unfold loadRemote. simpl.
  destruct (resolve _) as [container|kind message]; simpl.
  - apply Forall_forall. intros e He.
    apply (loadModules_spec remoteName container) in He
      as [path [message [_ [_ ->]]]]. reflexivity.
  - by constructor.
Qed.

Lemma filter_all {A} (P : A → Prop) `{!∀ x, Decision (P x)} (l : list A) :
  Forall P l → filter P l = l.
Proof.
  induction 1 as [|x l Hx _ IH]; [done|]. by rewrite filter_cons_True, IH.
Qed.

Lemma filter_none {A} (P : A → Prop) `{!∀ x, Decision (P x)} (l : list A) :
  Forall (λ x, ¬ P x) l → filter P l = [].
Proof.
  induction 1 as [|x l Hx _ IH]; [done|]. by rewrite filter_cons_False.
Qed.

Lemma elem_of_concat_fmap {A B} (f : A → list B) (l : list A) x b :
  x ∈ l → b ∈ f x → b ∈ concat (f <$> l).
Proof.
  intros Hx Hb. induction l as [|y l IH]; [by apply elem_of_nil in Hx|].
  rewrite fmap_cons. simpl. apply elem_of_app.
  apply elem_of_cons in Hx as [->|Hx]; [by left|right; by apply IH].
Qed.

Lemma elem_of_concat_fmap_inv {A B} (f : A → list B) (l : list A) b :
  b ∈ concat (f <$> l) → ∃ x, x ∈ l ∧ b ∈ f x.
Proof.
  induction l as [|y l IH]; [by intros ?%elem_of_nil|].
  rewrite fmap_cons. simpl. intros [Hb|Hb]%elem_of_app.
  - exists y. split; [by left|done].
  - destruct (IH Hb) as [x [? ?]]. exists x. split; [by right|done].
Qed.

(** Every error of the sweep comes from an entry of the remote map. *)
Lemma errors_origin (l : list (string * (string * option string))) e :
  e ∈ concat (snd <$> (loadRemote _ resolve <$> l)) →
  ∃ entry, entry ∈ l ∧ e ∈ (loadRemote _ resolve entry).2.
Proof.
  rewrite <- list_fmap_compose. apply elem_of_concat_fmap_inv.
Qed.

(** Among the errors of the sweep over entries with distinct names, those of
    one remote are the errors of its own entry. *)
Lemma errors_of_remote (l : list (string * (string * option string))) entry :
  NoDup l.*1 → entry ∈ l →
  filter (λ e, remote e = entry.1)
    (concat (snd <$> (loadRemote _ resolve <$> l))) =
  (loadRemote _ resolve entry).2.
Proof.
  intros Hnodup Hin. induction l as [|x l IH]; [by apply elem_of_nil in Hin|].
  rewrite !fmap_cons in *. simpl. rewrite filter_app.
  apply NoDup_cons in Hnodup as [Hx Hnodup].
  apply elem_of_cons in Hin as [->|Hin].
  - rewrite (filter_all _ _ (loadRemote_remote x)).
    rewrite filter_none; [by rewrite app_nil_r|].
    apply Forall_forall. intros e He Hremote. apply Hx.
    destruct (errors_origin l e He) as [y [Hy Hey]].
    pose proof (loadRemote_remote y) as Hall. rewrite Forall_forall in Hall.
    rewrite <- Hremote, (Hall e Hey). by apply list_elem_of_fmap_2.
  - rewrite filter_none; [by apply IH|].
    pose proof (loadRemote_remote x) as Hall. rewrite Forall_forall in Hall.
    apply Forall_forall. intros e He Hremote. apply Hx.
    rewrite <- (Hall e He), Hremote. by apply list_elem_of_fmap_2.
Qed.

(** What is loaded from the modules of one remote comes from a module
    that loads. *)
Lemma loadModules_origin remoteName (container : RemoteContainer Value) key value :
  (key, value) ∈ (loadModules _ remoteName container).1 →
  ∃ path,
    path ∈ moduleNameList _ container ∧
    get _ container path = inr value ∧
    key = moduleKey remoteName path.
Proof.
  unfold loadModules.
  induction (moduleNameList _ container) as [|p paths IH]; simpl.
  - by intros ?%elem_of_nil.
  - destruct (foldr _ _ paths) as [modules failures]. simpl in *.
    destruct (get _ container p) as [message|value'] eqn:Hp; simpl.
    + intros Hin. destruct (IH Hin) as [path [? [? ?]]].
      exists path. split; [by right|done].
    + intros [[= -> ->]|Hin]%elem_of_cons.
      * exists p. split; [by left|done].
      * destruct (IH Hin) as [path [? [? ?]]].
        exists path. split; [by right|done].
Qed.

(** Every module of the sweep comes from a module that loads from an entry
    of the remote map that resolves. *)
Lemma loaded_origin (l : list (string * (string * option string))) key value :
  (key, value) ∈ concat (fst <$> (loadRemote _ resolve <$> l)) →
  ∃ remoteName url scope container path,
    (remoteName, (url, scope)) ∈ l ∧
    resolve {| name := remoteName; entryUrl := url; scope := scope |} =
      Resolved _ container ∧
    path ∈ moduleNameList _ container ∧
    get _ container path = inr value ∧
    key = moduleKey remoteName path.
Proof.
  rewrite <- list_fmap_compose.
  intros [[remoteName [url scope]] [Hin Hkey]]%elem_of_concat_fmap_inv.
  unfold compose, loadRemote in Hkey.
  destruct (resolve _) as [container|kind message] eqn:Hres.
  - apply loadModules_origin in Hkey as [path [? [? ?]]].
    exists remoteName, url, scope, container, path. done.
  - by apply elem_of_nil in Hkey.
Qed.

Lemma append_cons c (s t : string) : String c s +:+ t = String c (s +:+ t).
Proof. reflexivity. Qed.

Lemma includes_cons_false c (s : string) sep :
  includes (String c s) (String sep EmptyString) = false →
  c ≠ sep ∧ includes s (String sep EmptyString) = false.
Proof.
  rewrite includes_unfold. intros [Hprefix Hrest]%orb_false_iff.
  split; [|exact Hrest]. intros ->. revert Hprefix.
  change (String.prefix (String sep EmptyString) (String sep s))
    with (if Ascii.ascii_dec sep sep then String.prefix EmptyString s else false).
  destruct (Ascii.ascii_dec sep sep); [|done]. by destruct s.
Qed.

(** The key of a module tells its remote and its name apart when remote
    names have no [/]. *)
Lemma moduleKey_inj remoteName remoteName' path path' :
  includes remoteName "/" = false →
  includes remoteName' "/" = false →
  moduleKey remoteName path = moduleKey remoteName' path' →
  remoteName = remoteName' ∧ moduleName path = moduleName path'.
Proof.
  unfold moduleKey. generalize (moduleName path) (moduleName path').
  intros m m'.
  change ("/" +:+ m) with (String "/" m).
  change ("/" +:+ m') with (String "/" m').
  revert remoteName'.
  induction remoteName as [|c r IH]; intros [|c' r'] Hr Hr';
    rewrite ?append_cons.
  - by intros [= ->].
  - intros [= <- _]. by apply includes_cons_false in Hr' as [? _].
  - intros [= -> _]. by apply includes_cons_false in Hr as [? _].
  - intros [= -> Hrest].
    apply includes_cons_false in Hr as [_ Hr].
    apply includes_cons_false in Hr' as [_ Hr'].
    destruct (IH r' Hr Hr' Hrest) as [-> ->]. done.
Qed.

(** C8, as the model has it. [dynamicLoad] returns for every remote map,
    whatever fails. For a remote whose resolution fails, [errors] holds
    exactly one entry, which carries the failure and names no module. For a
    remote that resolves, every module that loads has its key in [loaded],
    and every module that fails is recorded with its path. Every entry of
    [errors] is one of these failures, and every entry of [loaded] is a
    module that loaded, under its key and with its value. When no remote
    name has a [/] and the modules of each remote have distinct names,
    [loaded] holds every module that loaded, under its key and with its
    value. *)
Theorem dynamicLoad_partial_failure
    (remoteUrlMap : gmap string (string * option string)) :
  ∃ result,
    dynamicLoad _ resolve remoteUrlMap = Return result ∧
    (∀ remoteName url scope kind message,
       remoteUrlMap !! remoteName = Some (url, scope) →
       resolve {| name := remoteName; entryUrl := url; scope := scope |} =
         Failed _ kind message →
       filter (λ e, remote e = remoteName) (errors _ result) =
         [ {| remote := remoteName; module := None;
              kind := kind; message := message |} ]) ∧
    (∀ remoteName url scope container,
       remoteUrlMap !! remoteName = Some (url, scope) →
       resolve {| name := remoteName; entryUrl := url; scope := scope |} =
         Resolved _ container →
       (∀ path value,
          path ∈ moduleNameList _ container →
          get _ container path = inr value →
          is_Some (loaded _ result !! moduleKey remoteName path)) ∧
       (∀ path message,
          path ∈ moduleNameList _ container →
          get _ container path = inl message →
          {| remote := remoteName; module := Some path;
             kind := ModuleLoadError; message := message |}
            ∈ errors _ result) ∧
       ((∀ path, path ∈ moduleNameList _ container →
                 ∃ value, get _ container path = inr value) →
        filter (λ e, remote e = remoteName) (errors _ result) = [])) ∧
    (∀ e, e ∈ errors _ result →
          ∃ url scope,
            remoteUrlMap !! remote e = Some (url, scope) ∧
            match resolve {| name := remote e; entryUrl := url; scope := scope |} with
            | Failed _ kind message =>
                e = {| remote := remote e; module := None;
                       kind := kind; message := message |}
            | Resolved _ container =>
                ∃ path message,
                  path ∈ moduleNameList _ container ∧
                  get _ container path = inl message ∧
                  e = {| remote := remote e; module := Some path;
                         kind := ModuleLoadError; message := message |}
            end) ∧
    (∀ key value,
       loaded _ result !! key = Some value →
       ∃ remoteName url scope container path,
         remoteUrlMap !! remoteName = Some (url, scope) ∧
         resolve {| name := remoteName; entryUrl := url; scope := scope |} =
           Resolved _ container ∧
         path ∈ moduleNameList _ container ∧
         get _ container path = inr value ∧
         key = moduleKey remoteName path) ∧
    ((∀ remoteName entry,
        remoteUrlMap !! remoteName = Some entry →
        includes remoteName "/" = false) →
     (∀ remoteName url scope container,
        remoteUrlMap !! remoteName = Some (url, scope) →
        resolve {| name := remoteName; entryUrl := url; scope := scope |} =
          Resolved _ container →
        ∀ path path',
          path ∈ moduleNameList _ container →
          path' ∈ moduleNameList _ container →
          moduleName path = moduleName path' → path = path') →
     AsStated.every_loaded_module_is_kept resolve remoteUrlMap result).
Proof.
  eexists. split; [reflexivity|]. simpl.
  pose proof (NoDup_fst_map_to_list remoteUrlMap) as Hnodup.
  assert (∀ key value,
            (list_to_map
               (concat (fst <$> (loadRemote _ resolve <$> map_to_list remoteUrlMap)))
               : gmap string Value) !! key = Some value →
            ∃ remoteName url scope container path,
              remoteUrlMap !! remoteName = Some (url, scope) ∧
              resolve {| name := remoteName; entryUrl := url; scope := scope |} =
                Resolved _ container ∧
              path ∈ moduleNameList _ container ∧
              get _ container path = inr value ∧
              key = moduleKey remoteName path) as Hsound.
  { intros key value Hkey%elem_of_list_to_map_2.
    apply loaded_origin in Hkey
      as (remoteName & url & scope & container & path & Hin & ? & ? & ? & ?).
    apply elem_of_map_to_list in Hin.
    exists remoteName, url, scope, container, path. done. }
  assert (∀ remoteName url scope container path value,
            remoteUrlMap !! remoteName = Some (url, scope) →
            resolve {| name := remoteName; entryUrl := url; scope := scope |} =
              Resolved _ container →
            path ∈ moduleNameList _ container →
            get _ container path = inr value →
            is_Some
              ((list_to_map
                  (concat (fst <$> (loadRemote _ resolve <$> map_to_list remoteUrlMap)))
                  : gmap string Value) !! moduleKey remoteName path))
    as Hcomplete.
  { intros remoteName url scope container path value
      Hin%elem_of_map_to_list Hres Hpath Hget.
    destruct (loadModules_spec remoteName container) as [Hl _].
    apply not_eq_None_Some. intros Hnone%not_elem_of_list_to_map_2.
    apply Hnone. rewrite <- list_fmap_compose.
    apply (list_elem_of_fmap_2' fst _ (moduleKey remoteName path, value));
      [|done].
    eapply elem_of_concat_fmap; [exact Hin|].
    unfold compose, loadRemote. rewrite Hres. by apply Hl. }
  split; [|split; [|split; [|split]]].
  - intros remoteName url scope kind message Hin%elem_of_map_to_list Hfail.
    pose proof (errors_of_remote _ (remoteName, (url, scope)) Hnodup Hin)
      as Hown.
    simpl in Hown. by rewrite Hown, Hfail.
  - intros remoteName url scope container Hin%elem_of_map_to_list Hres.
    destruct (loadModules_spec remoteName container) as [Hl [Hf Hs]].
    assert (loadRemote _ resolve (remoteName, (url, scope)) =
            loadModules _ remoteName container) as Hentry
      by (unfold loadRemote; by rewrite Hres).
    split; [|split].
    + intros path value Hpath Hget.
      apply not_eq_None_Some. intros Hnone%not_elem_of_list_to_map_2.
      apply Hnone. rewrite <- list_fmap_compose.
      apply (list_elem_of_fmap_2' fst _ (moduleKey remoteName path, value));
        [|done].
      eapply elem_of_concat_fmap; [exact Hin|].
      unfold compose. rewrite Hentry. by apply Hl.
    + intros path message Hpath Hget. rewrite <- list_fmap_compose.
      eapply elem_of_concat_fmap; [exact Hin|].
      unfold compose. rewrite Hentry. by apply Hf.
    + intros Hall.
      pose proof (errors_of_remote _ (remoteName, (url, scope)) Hnodup Hin)
        as Hown.
      cbn [fst] in Hown. rewrite Hown, Hentry.
      destruct (loadModules _ remoteName container).2 as [|e failures] eqn:He;
        [done|].
      destruct (Hs e) as [path [message [Hpath [Hget _]]]];
        [by left|].
      destruct (Hall path Hpath) as [value Hvalue]. congruence.
  - intros e [[remoteName [url scope]] [Hin He]]%errors_origin.
    pose proof (loadRemote_remote (remoteName, (url, scope))) as Hremote.
    rewrite Forall_forall in Hremote. rewrite (Hremote e He). simpl.
    exists url, scope. split; [by apply elem_of_map_to_list|].
    unfold loadRemote in He.
    destruct (resolve _) as [container|kind message].
    + destruct (loadModules_spec remoteName container) as [_ [_ Hs]].
      destruct (Hs e He) as [path [message [? [? ->]]]]. eauto.
    + by apply list_elem_of_singleton in He.
  - exact Hsound.
  - intros Hslash Hdistinct remoteName url scope container path value
      Hmap Hres Hpath Hget.
    destruct (Hcomplete _ _ _ _ _ _ Hmap Hres Hpath Hget) as [value' Hvalue'].
    cbn [loaded]. rewrite Hvalue'. f_equal.
    destruct (Hsound _ _ Hvalue')
      as (remoteName' & url' & scope' & container' & path' &
          Hmap' & Hres' & Hpath' & Hget' & Hkey).
    apply moduleKey_inj in Hkey as [<- Hname]; [|by eauto|by eauto].
    rewrite Hmap in Hmap'. injection Hmap' as <- <-.
    rewrite Hres in Hres'. injection Hres' as <-.
    rewrite (Hdistinct _ _ _ _ Hmap Hres _ _ Hpath Hpath' Hname) in Hget.
    congruence.
Qed.

(** C8 fails as stated. The modules [./A] and [A] of one remote have the same
    key: both load, no error is recorded, and [loaded] holds one of them. *)
Lemma every_loaded_module_is_kept_fails :
  ∃ result,
    dynamicLoad string Scenario.resolve_same_name Sample.remoteUrlMap =
      Return result ∧
    size (loaded string result) = 1 ∧
    filter (λ e, remote e = "app1") (errors string result) = [] ∧
    ¬ AsStated.every_loaded_module_is_kept Scenario.resolve_same_name
        Sample.remoteUrlMap result.
Proof.
  eexists. split; [reflexivity|]. split; [by vm_compute|].
  split; [by vm_compute|]. intros Hkept.
  specialize (Hkept "app1" "http://localhost:3001/remoteEntry.js" None
                _ "A" "module A" eq_refl eq_refl).
  assert ("A" ∈ ["./A"; "A"]) as Hin by (right; left).
  specialize (Hkept Hin eq_refl). vm_compute in Hkept. discriminate Hkept.
Qed.

End DynamicLoadClaims.

(** In the scenario of the specification no remote name has a [/] and the
    modules [./A] and [./B] of [app1] have distinct names: every module
    that loads is kept. *)
Lemma dynamicLoad_partial_failure_witness :
  ∃ result,
    DynamicLoad.dynamicLoad string Sample.resolve Sample.remoteUrlMap =
      Return result ∧
    AsStated.every_loaded_module_is_kept Sample.resolve Sample.remoteUrlMap
      result.
Proof.
  destruct (dynamicLoad_partial_failure Sample.resolve Sample.remoteUrlMap)
    as (result & Hreturn & _ & _ & _ & _ & Hkept).
  exists result. split; [exact Hreturn|]. apply Hkept.
  - intros remoteName entry. unfold Sample.remoteUrlMap.
    intros [[<- _]|[_ [<- _]%lookup_singleton_Some]]%lookup_insert_Some;
      reflexivity.
  - intros remoteName url scope container _. unfold Sample.resolve. simpl.
    destruct (bool_decide (remoteName = "app1")); [|discriminate].
    intros [= <-] path path'. simpl.
    intros [->|[->|[]%elem_of_nil]%elem_of_cons]%elem_of_cons
           [->|[->|[]%elem_of_nil]%elem_of_cons]%elem_of_cons;
      simpl; intros; congruence.
Defined.

(** ** The theorems at work *)

Section Witnesses.
Import SharedConfig Sharing ModuleFederationPluginOptions Server.

(** The entry [react: '^18.0.0'] of the sample declaration is classified. *)
Lemma bare_string_entry_classified_witness :
  Forall (λ entry, is_array_value entry.2 = false) (entries Sample.shared) ∧
  entries Sample.shared !! 0 = Some ("react", Simple (ItemString "^18.0.0")) ∧
  ∃ parsed config,
    sharedOptions Sample.isRequiredVersion Sample.shared = Return parsed ∧
    parsed !! 0 = Some ("react", config) ∧
    ("^18.0.0" = "react" ∨ Sample.isRequiredVersion "^18.0.0" = false →
     import config = Some (ImportRequest "^18.0.0") ∧
     requiredVersion config = None) ∧
    ("^18.0.0" ≠ "react" ∧ Sample.isRequiredVersion "^18.0.0" = true →
     import config = Some (ImportRequest "react") ∧
     requiredVersion config = Some (VersionString "^18.0.0")).
Proof.
  assert (Forall (λ entry, is_array_value entry.2 = false)
            (entries Sample.shared)) as Hwf by (repeat constructor).
  split; [exact Hwf|]. split; [reflexivity|].
  exact (bare_string_entry_classified Sample.isRequiredVersion Sample.shared
           0 "react" "^18.0.0" Hwf eq_refl).
Defined.

(** The declaration [{ react: ['^17.0.0', '^18.0.0'] }] is refused. *)
Lemma array_value_throws_witness :
  Exists (λ entry, is_array_value entry.2 = true)
    (entries Sample.shared_with_array) ∧
  constructor Sample.isRequiredVersion
    {| Sharing.shared := Sample.shared_with_array; Sharing.shareScope := None |} =
    Throw (Error "Unexpected array in shared").
Proof.
  assert (Exists (λ entry, is_array_value entry.2 = true)
            (entries Sample.shared_with_array)) as Harr
    by (left; reflexivity).
  split; [exact Harr|].
  exact (array_value_throws Sample.isRequiredVersion
           {| Sharing.shared := Sample.shared_with_array;
              Sharing.shareScope := None |} Harr).
Defined.

(** The share keys of the plugin built from the sample declaration. *)
Lemma shareKey_never_empty_witness :
  ∃ plugin,
    Forall (λ key, key ≠ EmptyString) (entries Sample.shared).*1 ∧
    constructor Sample.isRequiredVersion
      {| Sharing.shared := Sample.shared; Sharing.shareScope := None |} =
      Return plugin ∧
    Forall (λ record, ConsumesConfig.shareKey record.2 ≠ EmptyString)
      (_consumes plugin) ∧
    Forall (λ record, ProvidesConfig.shareKey record.2 ≠ EmptyString)
      (_provides plugin).
Proof.
  eexists.
  assert (Forall (λ key, key ≠ EmptyString) (entries Sample.shared).*1)
    as Hkeys by (repeat constructor; discriminate).
  split; [exact Hkeys|]. split; [reflexivity|].
  exact (shareKey_never_empty Sample.isRequiredVersion
           {| Sharing.shared := Sample.shared; Sharing.shareScope := None |}
           _ Hkeys eq_refl).
Defined.

(** The share list of the sample declaration, parsed again. *)
Lemma sharedOptions_idempotent_witness :
  JsObject.property_order (entries Sample.shared).*1 ∧
  ∃ parsed,
    sharedOptions Sample.isRequiredVersion Sample.shared = Return parsed ∧
    entries (as_declaration parsed) =
      map (λ '(key, options), (key, Options options)) parsed ∧
    sharedOptions Sample.isRequiredVersion (as_declaration parsed) =
      Return parsed.
Proof.
  assert (JsObject.property_order (entries Sample.shared).*1) as Horder.
  { exists [], [], ["react"; "./lib"; "moment"].
    split; [reflexivity|]. split; [constructor|]. split; [constructor|].
    split; [repeat constructor|].
    apply (bool_decide_unpack _). vm_compute. exact I. }
  split; [exact Horder|]. eexists. split; [reflexivity|].
  exact (sharedOptions_idempotent Sample.isRequiredVersion Sample.shared
           _ Horder eq_refl).
Defined.

(** The share scopes of the plugin built from the sample declaration. *)
Lemma shareScope_copied_witness :
  ∃ plugin,
    constructor Sample.isRequiredVersion
      {| Sharing.shared := Sample.shared; Sharing.shareScope := None |} =
      Return plugin ∧
    ∃ parsed,
      sharedOptions Sample.isRequiredVersion Sample.shared = Return parsed ∧
      Forall2 (λ entry pair,
        pair.1 = entry.1 ∧
        match entry.2 with
        | Options item => pair.2 = item
        | Simple _ => only_import_and_requiredVersion pair.2
        end)
        (entries Sample.shared) parsed ∧
      Forall2 (λ pair record,
        ConsumesConfig.shareScope record.2 = SharedConfig.shareScope pair.2)
        parsed (_consumes plugin) ∧
      Forall2 (λ pair record,
        ProvidesConfig.shareScope record.2 = SharedConfig.shareScope pair.2)
        (List.filter (λ '(_, options), import_is_not_false options) parsed)
        (_provides plugin).
Proof.
  eexists. split; [reflexivity|].
  exact (shareScope_copied Sample.isRequiredVersion
           {| Sharing.shared := Sample.shared; Sharing.shareScope := None |}
           _ eq_refl).
Defined.

(** The host options, configured for the server. *)
Lemma configureServerLibraryAndFilename_effect_witness :
  filename (Sample.options None) = Some "static/chunks/remoteEntry.js" ∧
  ∃ options',
    configureServerLibraryAndFilename Sample.basename (Sample.options None) =
      (Return (), options') ∧
    library options' =
      Some {| LibraryOptions.type := "commonjs-module";
              LibraryOptions.name := name (Sample.options None) |} ∧
    filename options' =
      Some (Sample.basename "static/chunks/remoteEntry.js") ∧
    name options' = name (Sample.options None) ∧
    remotes options' = remotes (Sample.options None) ∧
    exposes options' = exposes (Sample.options None) ∧
    shared options' = shared (Sample.options None) ∧
    shareScope options' = shareScope (Sample.options None).
Proof.
  split; [reflexivity|].
  exact (configureServerLibraryAndFilename_effect Sample.basename
           (Sample.options None) "static/chunks/remoteEntry.js" eq_refl).
Defined.

(** The externals of a compiler whose only entry answers with [next]. *)
Lemma handleServerExternals_patch_witness :
  externals {| externals := ExternalsArray [ExternalFunction Sample.next_externals] |} =
    ExternalsArray [ExternalFunction Sample.next_externals] ∧
  ∃ patched,
    externals
      (handleServerExternals
         {| externals := ExternalsArray [ExternalFunction Sample.next_externals] |}
         (Sample.options (Some Sample.shared))) =
      ExternalsArray [ExternalFunction patched] ∧
    (∀ ctx request calls,
       Server.request ctx = Some request →
       request ≠ EmptyString →
       AsStated.names_internal_module (Sample.options (Some Sample.shared))
         request →
       patched ctx calls = (Return None, calls)) ∧
    (∀ ctx calls fromNext calls',
       ¬ (∃ request, Server.request ctx = Some request ∧
                     request ≠ EmptyString ∧
                     AsStated.names_internal_module
                       (Sample.options (Some Sample.shared)) request) →
       Sample.next_externals ctx (calls ++ [ctx]) = (Return fromNext, calls') →
       (fromNext = None ∨ fromNext = Some EmptyString →
        patched ctx calls = (Return None, calls')) ∧
       (∀ result req,
          fromNext = Some result →
          split " " result !! 1 = Some req →
          patched ctx calls =
            (Return (if startsWith req "next" || startsWith req "react"
                     then Some result else None), calls'))).
Proof.
  split; [reflexivity|].
  exact (handleServerExternals_patch
           {| externals := ExternalsArray [ExternalFunction Sample.next_externals] |}
           (Sample.options (Some Sample.shared)) Sample.next_externals []
           eq_refl).
Defined.

End Witnesses.

(** ** Examples *)

Section Examples.
Import SharedConfig Sharing ModuleFederationPluginOptions Server.

(** The share list of the sample declaration. *)
Example sharedOptions_sample :
  sharedOptions Sample.isRequiredVersion Sample.shared =
  Return
    [("react",
      SharedConfig.mk None (Some (ImportRequest "react")) None
        (Some (VersionString "^18.0.0")) None None None None None);
     ("./lib",
      SharedConfig.mk None (Some (ImportRequest "./lib")) None None None None
        None None None);
     ("moment",
      SharedConfig.mk None (Some ImportFalse) None None (Some "m") None None
        None None)].
Proof. reflexivity. Qed.

(** Its provides leave out [moment], whose import is [false]; its consumes
    do not. *)
Example constructor_sample :
  ∃ plugin,
    constructor Sample.isRequiredVersion
      {| Sharing.shared := Sample.shared; Sharing.shareScope := None |} =
      Return plugin ∧
    (_consumes plugin).*1 = ["react"; "./lib"; "moment"] ∧
    ConsumesConfig.shareKey <$> (_consumes plugin).*2 = ["react"; "./lib"; "m"] ∧
    (_provides plugin).*1 = ["react"; "./lib"].
Proof. eexists. repeat split. Qed.

(** Two entries with the same import are both provided. *)
Example provides_same_import :
  (provides
     [("a", SharedConfig.mk None (Some (ImportRequest "lib")) None None None
              None None None None);
      ("b", SharedConfig.mk None (Some (ImportRequest "lib")) None None None
              None None None None)]).*1 = ["lib"; "lib"].
Proof. reflexivity. Qed.

Example split_sample :
  split " " "commonjs next/router" = ["commonjs"; "next/router"] ∧
  split " " "lodash" = ["lodash"] ∧
  split " " EmptyString = [EmptyString].
Proof. repeat split. Qed.

(** A request for a shared package is bundled without a call; a request for
    [next/router] goes to the original, whose result is kept; a result
    without a space makes the replacement throw. *)
Example patchedExternals_sample :
  patchedExternals (Sample.options (Some Sample.shared))
    (ExternalFunction Sample.next_externals)
    {| request := Some "react-dom" |} [] = (Return None, []) ∧
  patchedExternals (Sample.options (Some Sample.shared))
    (ExternalFunction Sample.next_externals)
    {| request := Some "next/router" |} [] =
    (Return (Some "commonjs next/router"), [ {| request := Some "next/router" |} ]) ∧
  patchedExternals (Sample.options None)
    (ExternalFunction Sample.bare_externals)
    {| request := Some "lodash" |} [] =
    (Throw (TypeError
       "Cannot read properties of undefined (reading 'startsWith')"),
     [ {| request := Some "lodash" |} ]).
Proof. repeat split. Qed.

(** Without a filename the call throws after [library] has been set. *)
Example configureServerLibraryAndFilename_no_filename :
  ∃ options',
    configureServerLibraryAndFilename Sample.basename
      (ModuleFederationPluginOptions.mk (Some "host") None None None None None
         None) =
      (Throw (TypeError "The path argument must be of type string"), options') ∧
    library options' =
      Some {| LibraryOptions.type := "commonjs-module";
              LibraryOptions.name := Some "host" |}.
Proof. eexists. split; reflexivity. Qed.

Example basename_sample :
  Sample.basename "static/chunks/remoteEntry.js" = "remoteEntry.js".
Proof. reflexivity. Qed.

(** The scenario of the specification: [app1] loads, [app2] cannot be
    fetched. *)
Example dynamicLoad_sample :
  ∃ result,
    DynamicLoad.dynamicLoad string Sample.resolve Sample.remoteUrlMap =
      Return result ∧
    DynamicLoad.loaded string result !! "app1/A" = Some "module ./A" ∧
    DynamicLoad.loaded string result !! "app1/B" = Some "module ./B" ∧
    size (DynamicLoad.loaded string result) = 2 ∧
    DynamicLoad.errors string result =
      [ {| DynamicLoad.remote := "app2"; DynamicLoad.module := None;
           DynamicLoad.kind := DynamicLoad.RemoteLoadError;
           DynamicLoad.message := "fetch failed" |} ].
Proof. eexists. split; [reflexivity|]. vm_compute. repeat split. Qed.

End Examples.


(** * Further properties of the sources *)

(** ** The share list *)

Section SharePluginCoverage.
Import SharedConfig Sharing.
Variable isRequiredVersion : string → bool.

(** With an array value among the entries, the share list is not produced. *)
Lemma sharedOptions_array_Throw shared :
  Exists (λ entry, is_array_value entry.2 = true) (entries shared) →
  sharedOptions isRequiredVersion shared =
    Throw (Error "Unexpected array in shared").
Proof.
  intros Harr. unfold sharedOptions, parseOptions.
  apply forEach_Throw.
  - intros [key [item|item]] e; simpl; [|discriminate].
    destruct (normalizeSimple isRequiredVersion item key) as [c|e'] eqn:H;
      simpl; [discriminate|].
    intros [= <-]. by apply normalizeSimple_Throw in H as [_ ->].
  - apply Exists_exists in Harr as [[key value] [Hin Hv]].
    exists (key, value). split; [exact Hin|].
    destruct value as [[item|items]|item]; try discriminate. reflexivity.
Qed.

(** X1. The constructor returns a plugin exactly when no entry of the
    declaration has an array for its value. *)
Theorem constructor_returns_iff options :
  (∃ plugin, constructor isRequiredVersion options = Return plugin) ↔
  Forall (λ entry, is_array_value entry.2 = false) (entries (shared options)).
Proof.
  split.
  - intros [plugin [parsed [Hparsed _]]%constructor_Return].
    apply Forall_forall. intros entry Hin.
    destruct (is_array_value entry.2) eqn:Harr; [|done].
    rewrite sharedOptions_array_Throw in Hparsed; [discriminate|].
    apply Exists_exists. eauto.
  - intros [parsed Hparsed]%(sharedOptions_total isRequiredVersion).
    eexists. apply constructor_Return. eauto.
Qed.

(** The callback on a specifier that is its own key. *)
Lemma normalizeSimple_own_key item :
  normalizeSimple isRequiredVersion (ItemString item) item =
  Return (SharedConfig.mk None (Some (ImportRequest item)) None None None None
            None None None).
Proof. simpl. by rewrite bool_decide_eq_true_2. Qed.

(** X2. A declaration that is a list of specifiers never makes the
    constructor throw, and [isRequiredVersion] plays no part: every
    specifier, whatever it looks like, is consumed under itself with itself
    as import and share key and no required version, and is provided under
    itself. *)
Theorem constructor_of_specifiers items scope :
  constructor isRequiredVersion
    {| Sharing.shared := SharedArray items; Sharing.shareScope := scope |} =
  Return
    {| _shareScope := scope;
       _consumes :=
         (λ item,
            (item,
             ConsumesConfig.mk (Some (ImportRequest item)) item None None None
               None None None)) <$> items;
       _provides :=
         (λ item, (item, ProvidesConfig.mk item None None None)) <$> items |}.
Proof.
  apply constructor_Return. simpl.
  exists ((λ item, (item, SharedConfig.mk None (Some (ImportRequest item)) None
                            None None None None None None)) <$> items).
  split.
  - apply sharedOptions_Return. simpl.
    induction items as [|item items IH]; simpl; constructor; [|exact IH].
    split; [done|]. apply normalizeSimple_own_key.
  - f_equal.
    + unfold consumes. induction items as [|item items IH]; [done|].
      rewrite !fmap_cons. simpl. by rewrite IH.
    + induction items as [|item items IH]; [done|].
      rewrite !fmap_cons, provides_cons, IH. simpl.
      unfold import_or_key. simpl. by destruct item.
Qed.

(** X3. A bare string entry is always provided, never only consumed: the
    config the callback gives it yields one consumed record under the key
    and one provided record, both with the key as share key. The provided
    record is keyed by the item when the item is not empty and is the key or
    does not look like a version range, and by the key otherwise. *)
Theorem bare_string_entry_records item key :
  ∃ config path,
    normalizeSimple isRequiredVersion (ItemString item) key = Return config ∧
    consumes [(key, config)] =
      [(key,
        ConsumesConfig.mk (import config) key None (requiredVersion config)
          None None None None)] ∧
    provides [(key, config)] =
      [(path, ProvidesConfig.mk key None None None)] ∧
    (item ≠ EmptyString → item = key ∨ isRequiredVersion item = false →
     path = item) ∧
    (item = EmptyString ∨ (item ≠ key ∧ isRequiredVersion item = true) →
     path = key).
Proof.
  unfold normalizeSimple.
  destruct (bool_decide_reflect (item = key)) as [->|Hne];
    [|destruct (isRequiredVersion item) eqn:Hirv]; simpl.
  - exists (SharedConfig.mk None (Some (ImportRequest key)) None None None
              None None None None), key.
    repeat split; try done.
    unfold provides, import_or_key. simpl. by destruct key.
  - eexists _, key. repeat split; try done.
    + unfold provides, import_or_key. simpl. by destruct key.
    + intros _ [?|?]; done.
  - exists (SharedConfig.mk None (Some (ImportRequest item)) None None None
              None None None None), (if truthy item then item else key).
    repeat split; try done.
    + intros Hitem _. by destruct item.
    + intros [->|[_ ?]]; done.
Qed.

End SharePluginCoverage.

Section ShareListCoverage.
Import SharedConfig Sharing.

(** X4. What is provided is also consumed, and consistently: the share key,
    share scope and eagerness of the provided records are, in order, those
    of consumed records. *)
Theorem provides_sublist_of_consumes
    (sharedOptions : list (string * SharedConfig.t)) :
  (λ record : string * ProvidesConfig.t,
     (ProvidesConfig.shareKey record.2, ProvidesConfig.shareScope record.2,
      ProvidesConfig.eager record.2)) <$> provides sharedOptions
  `sublist_of`
  (λ record : string * ConsumesConfig.t,
     (ConsumesConfig.shareKey record.2, ConsumesConfig.shareScope record.2,
      ConsumesConfig.eager record.2)) <$> consumes sharedOptions.
Proof.
  induction sharedOptions as [|[key options] l IH]; [done|].
  rewrite provides_cons. unfold consumes in *. simpl.
  destruct (import_is_not_false options); simpl.
  - by apply sublist_skip.
  - by apply sublist_cons.
Qed.

(** X5. When every key of the share list is a non-empty string, so is the
    key of every consumed and of every provided record. *)
Theorem record_keys_nonempty (sharedOptions : list (string * SharedConfig.t)) :
  Forall (λ pair, pair.1 ≠ EmptyString) sharedOptions →
  Forall (λ record, record.1 ≠ EmptyString) (consumes sharedOptions) ∧
  Forall (λ record, record.1 ≠ EmptyString) (provides sharedOptions).
Proof.
  induction 1 as [|[key options] l Hkey _ [IHc IHp]]; [by split|].
  split.
  - unfold consumes in *. simpl. by constructor.
  - rewrite provides_cons. destruct (import_is_not_false options); [|done].
    simpl. constructor; [|done]. simpl. unfold import_or_key.
    destruct (import options) as [[|[|c request]]|]; done.
Qed.

(** The keys of the records built from [{ a: { import: '' } }]. *)
Lemma record_keys_nonempty_witness :
  Forall (λ pair : string * SharedConfig.t, pair.1 ≠ EmptyString)
    [("a", Sample.empty_import)] ∧
  Forall (λ record, record.1 ≠ EmptyString)
    (consumes [("a", Sample.empty_import)]) ∧
  Forall (λ record, record.1 ≠ EmptyString)
    (provides [("a", Sample.empty_import)]).
Proof.
  assert (Forall (λ pair : string * SharedConfig.t, pair.1 ≠ EmptyString)
            [("a", Sample.empty_import)]) as Hkeys
    by (repeat constructor; discriminate).
  split; [exact Hkeys|].
  exact (record_keys_nonempty [("a", Sample.empty_import)] Hkeys).
Defined.

End ShareListCoverage.

(** ** The server helpers *)

Section ServerCoverage.
Import Sharing ModuleFederationPluginOptions Server Scenario.

Lemma patchedExternals_unfold options originalExternals ctx calls :
  patchedExternals options originalExternals ctx calls =
  if bundled options ctx then (Return None, calls)
  else
    match call originalExternals ctx calls with
    | (Throw exn, calls) => (Throw exn, calls)
    | (Return None, calls) => (Return None, calls)
    | (Return (Some fromNext), calls) =>
        if negb (truthy fromNext) then (Return None, calls)
        else
          match split " " fromNext !! 1 with
          | None =>
              (Throw (TypeError
                 "Cannot read properties of undefined (reading 'startsWith')"),
               calls)
          | Some req =>
              if startsWith req "next" || startsWith req "react"
              then (Return (Some fromNext), calls)
              else (Return None, calls)
          end
    end.
Proof. reflexivity. Qed.

(** A string without the separator is a single piece. *)
Lemma split_without_separator sep s :
  includes s (String sep EmptyString) = false → split sep s = [s].
Proof.
  induction s as [|c s IH]; [done|].
  rewrite includes_unfold. intros [Hprefix Hrest]%orb_false_iff.
  simpl. rewrite (IH Hrest).
  rewrite bool_decide_eq_false_2; [done|].
  intros ->. revert Hprefix.
  change (String.prefix (String sep EmptyString) (String sep s))
    with (if Ascii.ascii_dec sep sep then String.prefix EmptyString s else false).
  destruct (Ascii.ascii_dec sep sep); [|done]. by destruct s.
Qed.

(** X6. [handleServerExternals] changes nothing but the first entry of an
    externals array: the other entries stay as and where they are, and the
    compiler is left as it is when the externals are not an array, when the
    array is empty and when its first entry is falsy. *)
Theorem handleServerExternals_frame compiler options :
  match externals compiler with
  | ExternalsArray (first :: rest) =>
      (∃ first',
         externals (handleServerExternals compiler options) =
           ExternalsArray (first' :: rest)) ∧
      (first_is_truthy (first :: rest) = false →
       handleServerExternals compiler options = compiler)
  | _ => handleServerExternals compiler options = compiler
  end.
Proof.
  destruct compiler as [[[|first rest]|item]]; unfold handleServerExternals;
    simpl; try done.
  destruct first as [fn|[|c external]]; simpl; split; eauto; done.
Qed.

(** X7. The replacement never invents a result and never makes an internal
    module external: when it returns a result, the request was not one it
    bundles, the original was called with the context and returned that very
    result, and the second token of the result starts with [next] or
    [react]. *)
Theorem patchedExternals_sound options originalExternals ctx calls result calls' :
  patchedExternals options (ExternalFunction originalExternals) ctx calls =
    (Return (Some result), calls') →
  bundled options ctx = false ∧
  originalExternals ctx (calls ++ [ctx]) = (Return (Some result), calls') ∧
  ∃ req, split " " result !! 1 = Some req ∧
         startsWith req "next" || startsWith req "react" = true.
Proof.
  rewrite patchedExternals_unfold. unfold call.
  destruct (bundled options ctx); [discriminate|].
  destruct (originalExternals ctx (calls ++ [ctx])) as [[[fromNext|]|exn] calls0];
    try discriminate.
  destruct (truthy fromNext); simpl; [|discriminate].
  destruct (split " " fromNext !! 1) as [req|] eqn:Hreq; [|discriminate].
  destruct (startsWith req "next" || startsWith req "react") eqn:Hstarts;
    [|discriminate].
  intros [= -> ->]. eauto.
Qed.

(** The request [next/router], which the sample host does not bundle, is
    answered by the original. *)
Lemma patchedExternals_sound_witness :
  patchedExternals (Sample.options (Some Sample.shared))
    (ExternalFunction Sample.next_externals)
    {| request := Some "next/router" |} [] =
    (Return (Some "commonjs next/router"), [ {| request := Some "next/router" |} ]) ∧
  bundled (Sample.options (Some Sample.shared))
    {| request := Some "next/router" |} = false ∧
  Sample.next_externals {| request := Some "next/router" |}
    ([] ++ [ {| request := Some "next/router" |} ]) =
    (Return (Some "commonjs next/router"), [ {| request := Some "next/router" |} ]) ∧
  ∃ req, split " " "commonjs next/router" !! 1 = Some req ∧
         startsWith req "next" || startsWith req "react" = true.
Proof.
  split; [reflexivity|].
  exact (patchedExternals_sound (Sample.options (Some Sample.shared))
           Sample.next_externals {| request := Some "next/router" |} []
           "commonjs next/router" [ {| request := Some "next/router" |} ]
           eq_refl).
Defined.

(** X8. For a request it does not bundle, the replacement throws a
    [TypeError] whenever the original returns a non-empty result without a
    space: such a result has no second token to test. *)
Theorem patchedExternals_tokenless_throws
    options originalExternals ctx calls result calls' :
  bundled options ctx = false →
  originalExternals ctx (calls ++ [ctx]) = (Return (Some result), calls') →
  result ≠ EmptyString →
  includes result " " = false →
  patchedExternals options (ExternalFunction originalExternals) ctx calls =
    (Throw (TypeError
       "Cannot read properties of undefined (reading 'startsWith')"),
     calls').
Proof.
  intros Hbundled Horig Hne%truthy_spec Hspace%split_without_separator.
  rewrite patchedExternals_unfold, Hbundled. unfold call.
  by rewrite Horig, Hne, Hspace.
Qed.

(** The result [lodash] of the original makes the replacement throw. *)
Lemma patchedExternals_tokenless_throws_witness :
  bundled (Sample.options None) {| request := Some "lodash" |} = false ∧
  Sample.bare_externals {| request := Some "lodash" |}
    ([] ++ [ {| request := Some "lodash" |} ]) =
    (Return (Some "lodash"), [ {| request := Some "lodash" |} ]) ∧
  "lodash" ≠ EmptyString ∧
  includes "lodash" " " = false ∧
  patchedExternals (Sample.options None)
    (ExternalFunction Sample.bare_externals)
    {| request := Some "lodash" |} [] =
    (Throw (TypeError
       "Cannot read properties of undefined (reading 'startsWith')"),
     [ {| request := Some "lodash" |} ]).
Proof.
  assert ("lodash" ≠ EmptyString) as Hne by discriminate.
  repeat (split; [first [reflexivity | exact Hne]|]).
  exact (patchedExternals_tokenless_throws (Sample.options None)
           Sample.bare_externals {| request := Some "lodash" |} []
           "lodash" [ {| request := Some "lodash" |} ]
           eq_refl eq_refl Hne eq_refl).
Defined.

(** X9. For a request it does not bundle, the replacement catches nothing:
    when the original throws, the replacement throws the same exception. *)
Theorem patchedExternals_propagates
    options originalExternals ctx calls exn calls' :
  bundled options ctx = false →
  originalExternals ctx (calls ++ [ctx]) = (Throw exn, calls') →
  patchedExternals options (ExternalFunction originalExternals) ctx calls =
    (Throw exn, calls').
Proof.
  intros Hbundled Horig. rewrite patchedExternals_unfold, Hbundled.
  unfold call. by rewrite Horig.
Qed.

(** A rejected original rejects the replacement. *)
Lemma patchedExternals_propagates_witness :
  bundled (Sample.options None) {| request := Some "lodash" |} = false ∧
  failing_externals {| request := Some "lodash" |}
    ([] ++ [ {| request := Some "lodash" |} ]) =
    (Throw (Error "Cannot resolve"), [ {| request := Some "lodash" |} ]) ∧
  patchedExternals (Sample.options None) (ExternalFunction failing_externals)
    {| request := Some "lodash" |} [] =
    (Throw (Error "Cannot resolve"), [ {| request := Some "lodash" |} ]).
Proof.
  repeat (split; [reflexivity|]).
  exact (patchedExternals_propagates (Sample.options None) failing_externals
           {| request := Some "lodash" |} [] (Error "Cannot resolve")
           [ {| request := Some "lodash" |} ] eq_refl eq_refl).
Defined.

(** Patching a replacement again: the outer replacement returns at once
    where the inner one would, and otherwise calls the inner one and
    completes as it does. *)
Lemma patchedExternals_twice options originalExternals ctx calls :
  patchedExternals options
    (ExternalFunction (patchedExternals options originalExternals)) ctx calls =
  patchedExternals options originalExternals ctx
    (if bundled options ctx then calls else calls ++ [ctx]).
Proof.
  rewrite (patchedExternals_unfold options (ExternalFunction _)).
  destruct (bundled options ctx) eqn:Hbundled.
  - by rewrite patchedExternals_unfold, Hbundled.
  - unfold call at 1. rewrite patchedExternals_unfold, Hbundled.
    destruct (call originalExternals ctx (calls ++ [ctx]))
      as [[[fromNext|]|exn] calls0]; try done.
    destruct (truthy fromNext) eqn:Htruthy; simpl; [|done].
    destruct (split " " fromNext !! 1) as [req|] eqn:Hreq; [|done].
    destruct (startsWith req "next" || startsWith req "react") eqn:Hstarts;
      [|done].
    by rewrite Htruthy, Hreq, Hstarts.
Qed.

(** X10. Patching the externals twice with the same options changes no
    answer: both times the first entry is replaced, and the second
    replacement completes on every context as the first one does, after one
    more recorded call when the request is not bundled. *)
Theorem handleServerExternals_twice compiler options first rest :
  externals compiler = ExternalsArray (first :: rest) →
  first_is_truthy (first :: rest) = true →
  ∃ once twice,
    externals (handleServerExternals compiler options) =
      ExternalsArray (ExternalFunction once :: rest) ∧
    externals
      (handleServerExternals (handleServerExternals compiler options) options) =
      ExternalsArray (ExternalFunction twice :: rest) ∧
    ∀ ctx calls,
      twice ctx calls =
        once ctx (if bundled options ctx then calls else calls ++ [ctx]).
Proof.
  intros Hext Htruthy.
  assert (handleServerExternals compiler options =
          {| externals :=
               ExternalsArray
                 (ExternalFunction (patchedExternals options first) :: rest) |})
    as -> by (unfold handleServerExternals; by rewrite Hext, Htruthy).
  eexists _, _. split; [reflexivity|]. split; [reflexivity|].
  intros ctx calls. apply patchedExternals_twice.
Qed.

(** The externals of a compiler whose only entry answers with [next],
    patched twice. *)
Lemma handleServerExternals_twice_witness :
  externals {| externals := ExternalsArray [ExternalFunction Sample.next_externals] |} =
    ExternalsArray [ExternalFunction Sample.next_externals] ∧
  first_is_truthy [ExternalFunction Sample.next_externals] = true ∧
  ∃ once twice,
    externals
      (handleServerExternals
         {| externals := ExternalsArray [ExternalFunction Sample.next_externals] |}
         (Sample.options None)) =
      ExternalsArray [ExternalFunction once] ∧
    externals
      (handleServerExternals
         (handleServerExternals
            {| externals := ExternalsArray [ExternalFunction Sample.next_externals] |}
            (Sample.options None))
         (Sample.options None)) =
      ExternalsArray [ExternalFunction twice] ∧
    ∀ ctx calls,
      twice ctx calls =
        once ctx
          (if bundled (Sample.options None) ctx then calls else calls ++ [ctx]).
Proof.
  split; [reflexivity|]. split; [reflexivity|].
  exact (handleServerExternals_twice
           {| externals := ExternalsArray [ExternalFunction Sample.next_externals] |}
           (Sample.options None) (ExternalFunction Sample.next_externals) []
           eq_refl eq_refl).
Defined.

(** X11. When [shared] is an array, the keys the replacement looks for in a
    request are the indices of the array, not the specifiers in it: a
    request is bundled for [shared] exactly when it includes the decimal
    form of an index. *)
Theorem array_shared_keys_are_indices options items request :
  shared options = Some (SharedArray items) →
  treated_as_internal options request = true ↔
  includes request "@module-federation/utilities" = true ∨
  includes request "internal-delegate-hoist" = true ∨
  includes request "@module-federation/dashboard-plugin" = true ∨
  ∃ index, index < length items ∧ includes request (pretty index) = true.
Proof.
  intros Hshared. unfold treated_as_internal. rewrite Hshared. simpl.
  rewrite !orb_true_iff, existsb_exists. split.
  - intros [[[H|H]|[key [Hin H]]]|H]; auto.
    apply in_map_iff in Hin as [index [<- Hindex%in_seq]].
    right. right. right. exists index. split; [lia|done].
  - intros [H|[H|[H|[index [Hindex H]]]]]; auto.
    left. right. exists (pretty index). split; [|done].
    apply in_map_iff. exists index. split; [done|]. apply in_seq. lia.
Qed.

(** With [shared: ['react']], the request [react] is not bundled and a
    request that includes [0] is. *)
Lemma array_shared_keys_are_indices_witness :
  shared options_without_filename = Some (SharedArray ["react"]) ∧
  treated_as_internal options_without_filename "react" = false ∧
  (treated_as_internal options_without_filename "lib-0" = true ↔
   includes "lib-0" "@module-federation/utilities" = true ∨
   includes "lib-0" "internal-delegate-hoist" = true ∨
   includes "lib-0" "@module-federation/dashboard-plugin" = true ∨
   ∃ index, index < length ["react"] ∧ includes "lib-0" (pretty index) = true).
Proof.
  split; [reflexivity|]. split; [reflexivity|].
  exact (array_shared_keys_are_indices options_without_filename ["react"]
           "lib-0" eq_refl).
Defined.

(** X12. A first externals entry that is a non-empty string is replaced
    like a function; the replacement then returns [undefined] for the
    requests it bundles and throws a [TypeError], without a call, for every
    other one. *)
Theorem string_external_is_patched compiler options external rest :
  externals compiler = ExternalsArray (ExternalString external :: rest) →
  external ≠ EmptyString →
  ∃ patched,
    externals (handleServerExternals compiler options) =
      ExternalsArray (ExternalFunction patched :: rest) ∧
    ∀ ctx calls,
      patched ctx calls =
        if bundled options ctx then (Return None, calls)
        else (Throw (TypeError "originalExternals is not a function"), calls).
Proof.
  intros Hext Hne%truthy_spec. unfold handleServerExternals.
  rewrite Hext. simpl. rewrite Hne. simpl.
  eexists. split; [reflexivity|]. intros ctx calls.
  rewrite patchedExternals_unfold. by destruct (bundled options ctx).
Qed.

(** The externals [['lodash']]. *)
Lemma string_external_is_patched_witness :
  externals {| externals := ExternalsArray [ExternalString "lodash"] |} =
    ExternalsArray [ExternalString "lodash"] ∧
  "lodash" ≠ EmptyString ∧
  ∃ patched,
    externals
      (handleServerExternals
         {| externals := ExternalsArray [ExternalString "lodash"] |}
         (Sample.options None)) =
      ExternalsArray [ExternalFunction patched] ∧
    ∀ ctx calls,
      patched ctx calls =
        if bundled (Sample.options None) ctx then (Return None, calls)
        else (Throw (TypeError "originalExternals is not a function"), calls).
Proof.
  assert ("lodash" ≠ EmptyString) as Hne by discriminate.
  split; [reflexivity|]. split; [exact Hne|].
  exact (string_external_is_patched
           {| externals := ExternalsArray [ExternalString "lodash"] |}
           (Sample.options None) "lodash" [] eq_refl Hne).
Defined.

(** X13. Without a filename the call throws, after the assignment to
    [library]: the options are left with the commonjs-module library of
    their name and otherwise as they were. *)
Theorem configureServerLibraryAndFilename_without_filename
    (basename : string → string) options :
  filename options = None →
  ∃ message options',
    configureServerLibraryAndFilename basename options =
      (Throw (TypeError message), options') ∧
    library options' =
      Some {| LibraryOptions.type := "commonjs-module";
              LibraryOptions.name := name options |} ∧
    filename options' = None ∧
    name options' = name options ∧
    remotes options' = remotes options ∧
    exposes options' = exposes options ∧
    shared options' = shared options ∧
    shareScope options' = shareScope options.
Proof.
  intros Hnone. unfold configureServerLibraryAndFilename. simpl.
  rewrite Hnone. eexists _, _. split; [reflexivity|]. simpl.
  repeat split; assumption.
Qed.

(** Options without a filename. *)
Lemma configureServerLibraryAndFilename_without_filename_witness :
  filename options_without_filename = None ∧
  ∃ message options',
    configureServerLibraryAndFilename Sample.basename options_without_filename =
      (Throw (TypeError message), options') ∧
    library options' =
      Some {| LibraryOptions.type := "commonjs-module";
              LibraryOptions.name := name options_without_filename |} ∧
    filename options' = None ∧
    name options' = name options_without_filename ∧
    remotes options' = remotes options_without_filename ∧
    exposes options' = exposes options_without_filename ∧
    shared options' = shared options_without_filename ∧
    shareScope options' = shareScope options_without_filename.
Proof.
  split; [reflexivity|].
  exact (configureServerLibraryAndFilename_without_filename Sample.basename
           options_without_filename eq_refl).
Defined.

(** X14. A second call takes the basename of the basename and changes
    nothing else; when the basename of a basename is that basename, as for a
    path without a directory, the second call changes nothing at all. *)
Theorem configureServerLibraryAndFilename_twice
    (basename : string → string) options path :
  filename options = Some path →
  ∃ once twice,
    configureServerLibraryAndFilename basename options = (Return (), once) ∧
    configureServerLibraryAndFilename basename once = (Return (), twice) ∧
    filename twice = Some (basename (basename path)) ∧
    library twice = library once ∧
    name twice = name once ∧
    remotes twice = remotes once ∧
    exposes twice = exposes once ∧
    shared twice = shared once ∧
    shareScope twice = shareScope once ∧
    (basename (basename path) = basename path → twice = once).
Proof.
  intros Hpath. unfold configureServerLibraryAndFilename. simpl.
  rewrite Hpath. simpl. eexists _, _.
  split; [reflexivity|]. split; [reflexivity|]. simpl.
  repeat split. by intros ->.
Qed.

(** The host options, configured twice. *)
Lemma configureServerLibraryAndFilename_twice_witness :
  filename (Sample.options None) = Some "static/chunks/remoteEntry.js" ∧
  Sample.basename (Sample.basename "static/chunks/remoteEntry.js") =
    Sample.basename "static/chunks/remoteEntry.js" ∧
  ∃ once twice,
    configureServerLibraryAndFilename Sample.basename (Sample.options None) =
      (Return (), once) ∧
    configureServerLibraryAndFilename Sample.basename once =
      (Return (), twice) ∧
    filename twice =
      Some (Sample.basename (Sample.basename "static/chunks/remoteEntry.js")) ∧
    library twice = library once ∧
    name twice = name once ∧
    remotes twice = remotes once ∧
    exposes twice = exposes once ∧
    shared twice = shared once ∧
    shareScope twice = shareScope once ∧
    (Sample.basename (Sample.basename "static/chunks/remoteEntry.js") =
       Sample.basename "static/chunks/remoteEntry.js" →
     twice = once).
Proof.
  split; [reflexivity|]. split; [reflexivity|].
  exact (configureServerLibraryAndFilename_twice Sample.basename
           (Sample.options None) "static/chunks/remoteEntry.js" eq_refl).
Defined.

End ServerCoverage.
